(** * fsradio: the connection and command-dispatch service of [fsradio_gui.py]

    A shallow embedding of [RadioService] (src/fsradio_gui.py, lines 42-184):
    the endpoint resolver [_normalize_candidates], the connect-with-fallback
    loop, the connection guard, the nine guarded wrappers, and the
    executor of [_run_coro] when several threads call the service.

    Python strings are modelled as [string], every character a code point
    below 256.  The [afsapi] library is an external collaborator: it is a
    parameter of the development, a state transformer on an abstract world
    that either returns a value or raises an [Exception]. *)

From Stdlib Require Import ZArith Ascii.
From Stdlib Require String.
From stdpp Require Import base decidable option list gmap strings.

Local Open Scope Z_scope.
Local Open Scope stdpp_scope.

(** ** Python's [str] methods used by the service *)

Module PyStr.

(** [str.isspace] on one character, for code points below 256: the
    characters [str.strip()] removes. *)
Definition isspace (c : ascii) : bool :=
  let n := Ascii.N_of_ascii c in
  ((9 <=? n) && (n <=? 13) || (28 <=? n) && (n <=? 32)
   || (n =? 133) || (n =? 160))%N.

(** [s.lstrip(chars)], the characters given as a predicate. *)
Fixpoint lstrip (p : ascii → bool) (s : string) : string :=
  match s with
  | "" => ""
  | String c s' => if p c then lstrip p s' else s
  end.

(** [s.rstrip(chars)]. *)
Fixpoint rstrip (p : ascii → bool) (s : string) : string :=
  match s with
  | "" => ""
  | String c s' =>
      match rstrip p s' with
      | "" => if p c then "" else String c ""
      | r => String c r
      end
  end.

(** [s.strip()]. *)
Definition strip (s : string) : string := rstrip isspace (lstrip isspace s).

(** [s[len(pre):]] when [s.startswith(pre)]. *)
Fixpoint strip_prefix (pre s : string) : option string :=
  match pre, s with
  | "", _ => Some s
  | String a pre', String b s' =>
      if Ascii.eqb a b then strip_prefix pre' s' else None
  | String _ _, "" => None
  end.

(** [s.startswith(pre)]. *)
Definition startswith (pre s : string) : bool :=
  bool_decide (is_Some (strip_prefix pre s)).

(** [s.endswith(suf)]. *)
Fixpoint endswith (suf s : string) : bool :=
  String.eqb suf s
  || match s with
     | "" => false
     | String _ s' => endswith suf s'
     end.

(** [s.partition(sep)] at the leftmost occurrence of [sep], [None] when
    [sep] does not occur. *)
Fixpoint partition (sep s : string) : option (string * string) :=
  match strip_prefix sep s with
  | Some rest => Some ("", rest)
  | None =>
      match s with
      | "" => None
      | String c s' =>
          match partition sep s' with
          | Some (a, b) => Some (String c a, b)
          | None => None
          end
      end
  end.

(** [sub in s]. *)
Definition contains (sub s : string) : bool :=
  bool_decide (is_Some (partition sub s)).

(** [s.split(sep, 1)] for a non-empty [sep]. *)
Definition split1 (sep s : string) : list string :=
  match partition sep s with
  | Some (a, b) => [a; b]
  | None => [s]
  end.

(** [s.split(sep)] for a non-empty [sep]; the fuel bounds the number of
    cuts, and a string has fewer occurrences of [sep] than characters. *)
Fixpoint split_fuel (fuel : nat) (sep s : string) : list string :=
  match fuel with
  | O => [s]
  | S fuel' =>
      match partition sep s with
      | Some (a, b) => a :: split_fuel fuel' sep b
      | None => [s]
      end
  end.

Definition split (sep s : string) : list string :=
  split_fuel (String.length s) sep s.

(** [sep.join(l)]. *)
Definition join (sep : string) (l : list string) : string :=
  String.concat sep l.

End PyStr.

(** ** The fragment of [re] used by the resolver *)

Module Re.

(** Patterns without repetition: literals, alternation, sequence, the
    optional group and the end anchor. *)
Inductive regex : Type :=
| Lit (s : string)
| Alt (r1 r2 : regex)
| Seq (r1 r2 : regex)
| Opt (r : regex)
| Dollar.

(** Without [re.MULTILINE], [$] matches at the end of the string and just
    before a newline that ends the string. *)
Definition at_end (s : string) : bool :=
  match s with
  | "" => true
  | String c "" => Ascii.eqb c "010"%char
  | _ => false
  end.

(** Backtracking match of [r] at the start of [s]; [k] receives what is
    left of [s]. *)
Fixpoint matches (r : regex) (s : string) (k : string → bool) : bool :=
  match r with
  | Lit l => match PyStr.strip_prefix l s with
             | Some rest => k rest
             | None => false
             end
  | Alt r1 r2 => matches r1 s k || matches r2 s k
  | Seq r1 r2 => matches r1 s (λ rest, matches r2 rest k)
  | Opt r1 => matches r1 s k || k s
  | Dollar => at_end s && k s
  end.

(** [re.search(r, s)] as a truth value: a match starting at some
    position of [s]. *)
Fixpoint search (r : regex) (s : string) : bool :=
  matches r s (λ _, true)
  || match s with
     | "" => false
     | String _ s' => search r s'
     end.

End Re.

(** ** Exceptions and outcomes *)

(** An instance of a subclass of [Exception]: its class name and [str()]. *)
Record exception : Type := Exc { exc_class : string; exc_str : string }.

Definition RuntimeError (msg : string) : exception := Exc "RuntimeError" msg.
Definition IndexError (msg : string) : exception := Exc "IndexError" msg.
Definition AttributeError (msg : string) : exception := Exc "AttributeError" msg.

(** What a call does: it returns a value or raises. *)
Inductive outcome (A : Type) : Type :=
| Return (a : A)
| Raise (e : exception).
Arguments Return {A} a.
Arguments Raise {A} e.

(** [l[i]] on a Python list. *)
Definition list_index {A} (l : list A) (i : nat) : outcome A :=
  match l !! i with
  | Some x => Return x
  | None => Raise (IndexError "list index out of range")
  end.

(** ** [RadioService._normalize_candidates] (lines 64-89) *)

(** Lines 69-70: a missing scheme is completed with [http://]. *)
Definition with_scheme (s : string) : string :=
  if PyStr.startswith "http://" s || PyStr.startswith "https://" s
  then s
  else "http://" +:+ s.

(** The pattern [r"/(device|fsapi)(/)?$"] of line 73. *)
Definition root_pattern : Re.regex :=
  Re.Seq (Re.Lit "/")
    (Re.Seq (Re.Alt (Re.Lit "device") (Re.Lit "fsapi"))
       (Re.Seq (Re.Opt (Re.Lit "/")) Re.Dollar)).

(** Lines 85-89: the dedupe loop, [seen] a set and [uniq] a list. *)
Fixpoint dedupe (candidates : list string) (seen : gset string)
    (uniq : list string) : list string :=
  match candidates with
  | [] => uniq
  | c :: rest =>
      if decide (c ∈ seen)
      then dedupe rest seen uniq
      else dedupe rest ({[c]} ∪ seen) (uniq ++ [c])
  end.

Definition _normalize_candidates (user_input : string) : outcome (list string) :=
  let s := PyStr.strip user_input in
  if bool_decide (s = "") then Return []
  else
    let s := with_scheme s in
    if Re.search root_pattern s then Return [s]
    else
      let host_port := PyStr.rstrip (Ascii.eqb "/") s in
      match list_index (PyStr.split1 "//" host_port) 1 with
      | Raise e => Raise e
      | Return host_only =>
          let has_port := PyStr.contains ":" host_only in
          let candidates :=
            [ if has_port then host_port +:+ "/device"
              else host_port +:+ ":80/device";
              if has_port then host_port +:+ "/fsapi"
              else host_port +:+ ":80/fsapi";
              host_port ] in
          Return (dedupe candidates ∅ [])
      end.

(** The four endings line 73 looks for, in the words of the specification:
    one of the two path roots, optionally followed by a slash. *)
Definition ends_in_root (s : string) : bool :=
  PyStr.endswith "/device" s || PyStr.endswith "/fsapi" s
  || PyStr.endswith "/device/" s || PyStr.endswith "/fsapi/" s.

(** ** The external collaborators *)

(** The coroutines of an [AFSAPI] object that the service calls. *)
Inductive method (Value : Type) : Type :=
| GetFriendlyName
| GetPower
| SetPower (on : bool)
| GetVolume
| SetVolume (value : Z)
| GetModes
| SetMode (mode : string)
| GetPresets
| RecallPreset (preset : Value).
Arguments GetFriendlyName {Value}.
Arguments GetPower {Value}.
Arguments SetPower {Value} on.
Arguments GetVolume {Value}.
Arguments SetVolume {Value} value.
Arguments GetModes {Value}.
Arguments SetMode {Value} mode.
Arguments GetPresets {Value}.
Arguments RecallPreset {Value} preset.

Definition method_name {Value} (m : method Value) : string :=
  match m with
  | GetFriendlyName => "get_friendly_name"
  | GetPower => "get_power"
  | SetPower _ => "set_power"
  | GetVolume => "get_volume"
  | SetVolume _ => "set_volume"
  | GetModes => "get_modes"
  | SetMode _ => "set_mode"
  | GetPresets => "get_presets"
  | RecallPreset _ => "recall_preset"
  end.

(** What the service does not implement: the [afsapi] library (absent when
    the import of line 27 failed), the resolver behind
    [socket.gethostbyname], and the builtins [bool] and [int] on the values
    the library returns.  A call transforms the state of the world outside
    the process and returns or raises an [Exception]. *)
Class External : Type := {
  World : Type;
  Handle : Type;
  Value : Type;
  afsapi_imported : bool;
  AFSAPI_create : string → Z → Z → World → World * outcome Handle;
  api_call : Handle → method Value → World → World * outcome Value;
  gethostbyname : string → World → World * outcome string;
  py_bool : Value → Value;
  py_int : Value → outcome Value;
}.

(** ** The service and its state *)

Section service.

Context `{External}.

(** The fields of a [RadioService] that hold the session and its
    settings (lines 46-50). *)
Record RadioService : Type := {
  _api : option Handle;
  _connected : bool;
  url_used : option string;
  pin : Z;
  timeout : Z;
}.

(** [RadioService.__init__]. *)
Definition __init__ : RadioService :=
  {| _api := None; _connected := false; url_used := None;
     pin := 1234; timeout := 2 |}.

(** One call that reached the library, with what it gave back. *)
Inductive event : Type :=
| EvCreate (base : string) (pin timeout : Z) (r : outcome Handle)
| EvCall (api : Handle) (m : method Value) (r : outcome Value).

(** The object, the world outside, and the log of the calls made to the
    library so far, oldest first. *)
Record state : Type := {
  self : RadioService;
  world : World;
  calls : list event;
}.

(** A method body: it updates the state and returns or raises.  The
    state reached is kept when it raises, as in Python. *)
Definition M (A : Type) : Type := state → state * outcome A.

#[export] Instance M_ret : MRet M := λ A a σ, (σ, Return a).

#[export] Instance M_bind : MBind M := λ A B f m σ,
  match m σ with
  | (σ', Return a) => f a σ'
  | (σ', Raise e) => (σ', Raise e)
  end.

Definition raise {A} (e : exception) : M A := λ σ, (σ, Raise e).

Definition of_outcome {A} (r : outcome A) : M A := λ σ, (σ, r).

(** [try: body / except Exception as e:] with the handler left to the
    caller. *)
Definition try_except {A} (body : M A) : M (outcome A) := λ σ,
  let (σ', r) := body σ in (σ', Return r).

Definition get_self : M RadioService := λ σ, (σ, Return (self σ)).

Definition set_self (f : RadioService → RadioService) : M unit := λ σ,
  ({| self := f (self σ); world := world σ; calls := calls σ |}, Return tt).

Definition set__api (v : option Handle) (s : RadioService) : RadioService :=
  {| _api := v; _connected := _connected s; url_used := url_used s;
     pin := pin s; timeout := timeout s |}.
Definition set__connected (v : bool) (s : RadioService) : RadioService :=
  {| _api := _api s; _connected := v; url_used := url_used s;
     pin := pin s; timeout := timeout s |}.
Definition set_url_used (v : option string) (s : RadioService) : RadioService :=
  {| _api := _api s; _connected := _connected s; url_used := v;
     pin := pin s; timeout := timeout s |}.
Definition set_pin (v : Z) (s : RadioService) : RadioService :=
  {| _api := _api s; _connected := _connected s; url_used := url_used s;
     pin := v; timeout := timeout s |}.
Definition set_timeout (v : Z) (s : RadioService) : RadioService :=
  {| _api := _api s; _connected := _connected s; url_used := url_used s;
     pin := pin s; timeout := v |}.

(** [await AFSAPI.create(base, pin, timeout)]. *)
Definition await_create (base : string) (pin timeout : Z) : M Handle := λ σ,
  let (w, r) := AFSAPI_create base pin timeout (world σ) in
  ({| self := self σ; world := w;
      calls := calls σ ++ [EvCreate base pin timeout r] |}, r).

(** [await api.m(...)]. *)
Definition await_call (api : Handle) (m : method Value) : M Value := λ σ,
  let (w, r) := api_call api m (world σ) in
  ({| self := self σ; world := w; calls := calls σ ++ [EvCall api m r] |}, r).

(** [socket.gethostbyname(name)]. *)
Definition socket_gethostbyname (name : string) : M string := λ σ,
  let (w, r) := gethostbyname name (world σ) in
  ({| self := self σ; world := w; calls := calls σ |}, r).

(** [_run_coro] (lines 59-62), with [_ensure_loop]: the coroutine is
    handed to the service's event loop and the caller blocks on
    [fut.result()], which returns what the coroutine returned or raises
    what it raised. *)
Definition _run_coro {A} (coro : M A) : M A := coro.

(** [str(last_err)] in the f-string of line 130. *)
Definition str_of (last_err : option exception) : string :=
  match last_err with
  | None => "None"
  | Some e => exc_str e
  end.

(** The optional DNS check of lines 98-105; whatever it raises is
    dropped. *)
Definition dns_check (user_url : string) : M unit :=
  _ ← try_except (
    host ← (if PyStr.startswith "http" user_url
            then of_outcome (list_index (PyStr.split1 "://" user_url) 1)
            else mret user_url);
    host ← of_outcome (list_index (PyStr.split1 "/" host) 0);
    name ← of_outcome (list_index (PyStr.split ":" host) 0);
    socket_gethostbyname name);
  mret tt.

(** The coroutine [_create] of lines 114-117. *)
Definition _create (base : string) : M Handle :=
  s ← get_self;
  api ← await_create base (pin s) (timeout s);
  _ ← await_call api GetFriendlyName;
  mret api.

(** The loop of lines 112-125 over the candidates left; it returns
    [last_err].  Not recursing is the [break]. *)
Fixpoint connect_loop (candidates : list string)
    (last_err : option exception) : M (option exception) :=
  match candidates with
  | [] => mret last_err
  | base :: rest =>
      r ← try_except (
        api ← _run_coro (_create base);
        set_self (set__api (Some api));;
        set_self (set__connected true);;
        set_self (set_url_used (Some base)));
      match r with
      | Return _ => mret last_err
      | Raise e => connect_loop rest (Some e)
      end
  end.

(** [RadioService.connect] (lines 91-131). *)
Definition connect (user_url : string) (pin' timeout' : Z) : M unit :=
  if negb afsapi_imported
  then raise (RuntimeError
    "Dependency missing: install with `pip install afsapi` in your venv.")
  else
    set_self (set_pin pin');;
    set_self (set_timeout timeout');;
    dns_check user_url;;
    set_self (set__api None);;
    set_self (set__connected false);;
    set_self (set_url_used None);;
    candidates ← of_outcome (_normalize_candidates user_url);
    last_err ← connect_loop candidates None;
    s ← get_self;
    if negb (_connected s)
    then
      tried ← of_outcome (_normalize_candidates user_url);
      raise (RuntimeError
        ("Could not connect to the radio. " +:+ "Tried: "
         +:+ PyStr.join ", " tried +:+ ". Last error: " +:+ str_of last_err))
    else mret tt.

(** [RadioService.is_connected] (lines 133-134). *)
Definition is_connected : M bool :=
  s ← get_self;
  mret (_connected s && bool_decide (_api s ≠ None)).

(** [RadioService._require] (lines 137-139). *)
Definition _require : M unit :=
  c ← is_connected;
  if negb c then raise (RuntimeError "Not connected to a radio.")
  else mret tt.

(** [await self._api.m(...)] inside a coroutine [_c]: the attribute is
    read when the coroutine runs. *)
Definition await_self_api (m : method Value) : M Value :=
  s ← get_self;
  match _api s with
  | Some api => await_call api m
  | None => raise (AttributeError
      ("'NoneType' object has no attribute '" +:+ method_name m +:+ "'"))
  end.

(** The guarded wrappers (lines 141-184). *)
Definition get_friendly_name : M Value :=
  _require;; _run_coro (await_self_api GetFriendlyName).

Definition get_power : M Value :=
  _require;; v ← _run_coro (await_self_api GetPower); mret (py_bool v).

Definition set_power (on : bool) : M Value :=
  _require;; _run_coro (await_self_api (SetPower on)).

Definition get_volume : M Value :=
  _require;; v ← _run_coro (await_self_api GetVolume); of_outcome (py_int v).

Definition set_volume (value : Z) : M Value :=
  _require;; _run_coro (await_self_api (SetVolume value)).

Definition get_modes : M Value :=
  _require;; _run_coro (await_self_api GetModes).

Definition set_mode (mode : string) : M Value :=
  _require;; _run_coro (await_self_api (SetMode mode)).

Definition get_presets : M Value :=
  _require;; _run_coro (await_self_api GetPresets).

Definition recall_preset (preset : Value) : M Value :=
  _require;; _run_coro (await_self_api (RecallPreset preset)).

(** The wrapper that forwards to a given coroutine: the nine command
    operations as one family. *)
Definition command (m : method Value) : M Value :=
  match m with
  | GetFriendlyName => get_friendly_name
  | GetPower => get_power
  | SetPower on => set_power on
  | GetVolume => get_volume
  | SetVolume value => set_volume value
  | GetModes => get_modes
  | SetMode mode => set_mode mode
  | GetPresets => get_presets
  | RecallPreset preset => recall_preset preset
  end.

End service.

(** ** Sessions: the vocabulary of the specification *)

Section session.

Context `{External}.

(** Modelled from the spec: [RadioService] has no [disconnect] method and
    nothing in the source calls one.  The specification's [disconnect()]
    "unconditionally clears the session to the absent state"; the three
    assignments are those by which [connect] resets the session
    (lines 107-109). *)
Definition disconnect : M unit :=
  set_self (set__api None);;
  set_self (set__connected false);;
  set_self (set_url_used None).

(** One connection attempt as the library sees it: creation, then the
    probe. *)
Definition attempt (base : string) (pin' timeout' : Z) (w : World)
    : World * outcome Handle :=
  match AFSAPI_create base pin' timeout' w with
  | (w1, Return api) =>
      match api_call api GetFriendlyName w1 with
      | (w2, Return _) => (w2, Return api)
      | (w2, Raise e) => (w2, Raise e)
      end
  | (w1, Raise e) => (w1, Raise e)
  end.

(** Every candidate of the list fails in turn, starting in world [w]: the
    world reached and the errors raised, one per candidate. *)
Fixpoint all_fail (candidates : list string) (pin' timeout' : Z) (w : World)
    : option (World * list exception) :=
  match candidates with
  | [] => Some (w, [])
  | base :: rest =>
      match attempt base pin' timeout' w with
      | (w', Raise e) =>
          match all_fail rest pin' timeout' w' with
          | Some (w'', errs) => Some (w'', e :: errs)
          | None => None
          end
      | (_, Return _) => None
      end
  end.

(** The state in which the fallback loop starts: settings stored, DNS
    check done, session reset. *)
Definition reset_state (user_url : string) (pin' timeout' : Z) (σ : state)
    : state :=
  {| self := {| _api := None; _connected := false; url_used := None;
                pin := pin'; timeout := timeout' |};
     world := world (dns_check user_url σ).1;
     calls := calls σ |}.

(** [last_err] after a run of failures. *)
Definition last_error (init : option exception) (errs : list exception)
    : option exception :=
  foldl (λ _ e, Some e) init errs.

Definition is_create (ev : event) : bool :=
  match ev with
  | EvCreate _ _ _ _ => true
  | EvCall _ _ _ => false
  end.

(** The base URLs handed to [AFSAPI.create], in the order of the calls. *)
Definition created (log : list event) : list string :=
  omap (λ ev, match ev with
              | EvCreate base _ _ _ => Some base
              | EvCall _ _ _ => None
              end) log.

(** [api] is what the latest call of [AFSAPI.create] returned, for the
    base URL [url], and the probe that followed it succeeded. *)
Definition last_probed (url : string) (api : Handle) (log : list event) : Prop :=
  ∃ before after pin' timeout' name,
    log = before ++ EvCreate url pin' timeout' (Return api)
                 :: EvCall api GetFriendlyName (Return name) :: after
    ∧ Forall (λ ev, is_create ev = false) after.

(** The invariant of the session, as one case analysis. *)
Definition session_ok (σ : state) : Prop :=
  match _api (self σ), _connected (self σ), url_used (self σ) with
  | Some api, true, Some url => last_probed url api (calls σ)
  | None, false, None => True
  | _, _, _ => False
  end.

(** The public operations, and the state after a sequence of them from
    start-up. *)
Inductive operation : Type :=
| OpConnect (user_url : string) (pin' timeout' : Z)
| OpDisconnect
| OpIsConnected
| OpCommand (m : method Value).

Definition perform (o : operation) (σ : state) : state :=
  match o with
  | OpConnect user_url pin' timeout' => (connect user_url pin' timeout' σ).1
  | OpDisconnect => (disconnect σ).1
  | OpIsConnected => (is_connected σ).1
  | OpCommand m => (command m σ).1
  end.

Definition startup (w : World) : state :=
  {| self := __init__; world := w; calls := [] |}.

Definition run (ops : list operation) (σ : state) : state :=
  foldl (λ σ o, perform o σ) σ ops.

End session.

(** ** Two radios for concrete runs *)

(** A radio that accepts connections on its /fsapi root only and whose
    volume read-out times out; the world counts the calls it received. *)
Definition bench_radio : External := {|
  World := nat;
  Handle := string;
  Value := string;
  afsapi_imported := true;
  AFSAPI_create base _ _ n :=
    (S n, if String.eqb base "http://192.168.0.153:80/fsapi"
          then Return base
          else Raise (Exc "ConnectionError" "Connection refused"));
  api_call _ m n :=
    (S n, match m with
          | GetVolume => Raise (Exc "TimeoutError" "timed out")
          | _ => Return "Kitchen"
          end);
  gethostbyname name n := (n, Return name);
  py_bool v := v;
  py_int v := Return v;
|}.

(** A radio that is switched off: creation succeeds nowhere. *)
Definition dead_radio : External := {|
  World := nat;
  Handle := string;
  Value := string;
  afsapi_imported := true;
  AFSAPI_create base _ _ n :=
    (S n, Raise (Exc "ConnectionError" ("Cannot connect to " +:+ base)));
  api_call _ _ n := (S n, Raise (Exc "ConnectionError" "Connection lost"));
  gethostbyname name n := (n, Return name);
  py_bool v := v;
  py_int v := Return v;
|}.

Definition bench_start : @state bench_radio := @startup bench_radio 0%nat.
Definition dead_start : @state dead_radio := @startup dead_radio 0%nat.

(** The bench radio after a successful [connect]. *)
Definition bench_connected : @state bench_radio :=
  (@connect bench_radio "192.168.0.153" 1234 2 bench_start).1.

(** ** Further vocabulary for the service *)

Section session_more.

Context `{External}.

(** A call that [connect] makes: a creation with the settings it was
    given, or the probe. *)
Definition connect_call (pin' timeout' : Z) (ev : event) : bool :=
  match ev with
  | EvCreate _ p t _ => (p =? pin') && (t =? timeout')
  | EvCall _ GetFriendlyName _ => true
  | EvCall _ _ _ => false
  end.

(** What a wrapper makes of the value the library returned: [bool(...)] in
    [get_power] (line 149), [int(...)] in [get_volume] (line 159), the
    value itself in the others. *)
Definition wrapper_result (m : method Value) (v : Value) : outcome Value :=
  match m with
  | GetPower => Return (py_bool v)
  | GetVolume => py_int v
  | _ => Return v
  end.

(** The session fields as [connect] resets them (lines 107-109). *)
Definition cleared (s : RadioService) : Prop :=
  _api s = None ∧ _connected s = false ∧ url_used s = None.

(** The operations that go through [_require], and [is_connected]. *)
Definition guarded_only (o : operation) : bool :=
  match o with
  | OpCommand _ | OpIsConnected => true
  | OpConnect _ _ _ | OpDisconnect => false
  end.

End session_more.

(** The bench radio in a process where the import of [afsapi] failed. *)
Definition no_afsapi : External := {|
  World := nat;
  Handle := string;
  Value := string;
  afsapi_imported := false;
  AFSAPI_create := @AFSAPI_create bench_radio;
  api_call := @api_call bench_radio;
  gethostbyname := @gethostbyname bench_radio;
  py_bool := @py_bool bench_radio;
  py_int := @py_int bench_radio;
|}.

(** ** Further vocabulary for the resolver *)



(** ** The executor under several callers (lines 52-62) *)

(** The GUI calls the service from threads of its own (lines 320-327, 376
    and 426), and every call that reaches the library goes through
    [_run_coro]: the coroutine is handed to the one loop that
    [_ensure_loop] started, and the calling thread blocks on
    [fut.result()].  The loop is asyncio's: it runs the task at the head
    of its queue up to the next [await] on the library, takes the next
    task meanwhile, and requeues a task when the answer it awaits has
    arrived.  [_ensure_loop] is taken as one step of the first caller.
    [_run_coro] holds no lock and keeps no queue of its own. *)

Section executor.

Context `{External}.

(** The coroutines handed to [_run_coro]: [_create] of [connect]
    (lines 114-117) and the [_c] of a wrapper (lines 143-183). *)
Inductive coroutine : Type :=
| Co_create (base : string)
| Co_c (m : method Value).

(** A call to the library that a coroutine awaits. *)
Inductive device_call : Type :=
| DevCreate (base : string)
| DevMethod (m : method Value).

(** The awaits of a coroutine, in order: creation then probe for
    [_create], the forwarded call for [_c]. *)
Definition awaits (c : coroutine) : list device_call :=
  match c with
  | Co_create base => [DevCreate base; DevMethod GetFriendlyName]
  | Co_c m => [DevMethod m]
  end.

(** A task of the loop: the caller that blocks on its future, and the
    awaits it has left, the first of them the call it is suspended on
    when the task is in flight. *)
Record task : Type := { owner : nat; pending : list device_call }.

(** A calling thread: the coroutine whose result it waits for, if any,
    and the coroutines it will hand over next, in program order. *)
Record caller : Type := { waiting : option coroutine; todo : list coroutine }.

(** The callers, the loop's queue of tasks ready to run, the tasks
    suspended on a call that is in flight, and the coroutines finished so
    far with their callers, oldest first. *)
Record executor : Type := {
  callers : list caller;
  ready : list task;
  in_flight : list task;
  completed : list (nat * coroutine);
}.

(** What can happen next. *)
Inductive move : Type :=
| CallerSubmits (i : nat)
| LoopRuns
| DeviceResponds (k : nat) (ok : bool).

(** One move; a move that is not possible changes nothing.
    - [CallerSubmits i]: thread [i], not blocked, enters [_run_coro] with
      its next coroutine: [run_coroutine_threadsafe] queues a task and
      [fut.result()] blocks the thread.
    - [LoopRuns]: the loop takes the task at the head of its queue; with
      an await left the call is sent and the task is suspended, in
      flight; with none left the coroutine ends and the future wakes its
      caller.
    - [DeviceResponds k ok]: the [k]-th call in flight is answered; the
      task is queued again, with its remaining awaits, or with none when
      the call raised. *)
Definition exec (mv : move) (x : executor) : executor :=
  match mv with
  | CallerSubmits i =>
      match callers x !! i with
      | Some {| waiting := None; todo := c :: rest |} =>
          {| callers := <[i := {| waiting := Some c; todo := rest |}]> (callers x);
             ready := ready x ++ [{| owner := i; pending := awaits c |}];
             in_flight := in_flight x;
             completed := completed x |}
      | _ => x
      end
  | LoopRuns =>
      match ready x with
      | [] => x
      | t :: rest =>
          match pending t with
          | _ :: _ =>
              {| callers := callers x; ready := rest;
                 in_flight := in_flight x ++ [t];
                 completed := completed x |}
          | [] =>
              match callers x !! owner t with
              | Some {| waiting := Some c; todo := rest' |} =>
                  {| callers := <[owner t := {| waiting := None; todo := rest' |}]>
                                  (callers x);
                     ready := rest;
                     in_flight := in_flight x;
                     completed := completed x ++ [(owner t, c)] |}
              | _ => x
              end
          end
      end
  | DeviceResponds k ok =>
      match in_flight x !! k with
      | Some t =>
          {| callers := callers x;
             ready := ready x
                      ++ [{| owner := owner t;
                             pending := if ok then tail (pending t) else [] |}];
             in_flight := delete k (in_flight x);
             completed := completed x |}
      | None => x
      end
  end.

(** The executor before any call, one program per calling thread. *)
Definition boot (programs : list (list coroutine)) : executor :=
  {| callers := (λ p, {| waiting := None; todo := p |}) <$> programs;
     ready := []; in_flight := []; completed := [] |}.

Definition run_moves (moves : list move) (x : executor) : executor :=
  foldl (λ x mv, exec mv x) x moves.

(** The tasks that caller [i] has in the loop, queued or in flight. *)
Definition tasks_of (i : nat) (x : executor) : list task :=
  filter (λ t, owner t = i) (ready x ++ in_flight x).

(** The coroutines of caller [i] that have finished, oldest first. *)
Definition completed_by (i : nat) (x : executor) : list coroutine :=
  (filter (λ p, p.1 = i) (completed x)).*2.

(** How many tasks of caller [i] a list holds. *)
Definition count_of (i : nat) (l : list task) : nat :=
  length (filter (λ t, owner t = i) l).

(** What a caller contributes to the loop: one task while it waits. *)
Definition load (cs : caller) : nat :=
  match waiting cs with
  | Some _ => 1
  | None => 0
  end.

(** The program of a caller, recovered from what it has finished, what it
    waits for and what it has left. *)
Definition account (i : nat) (x : executor) (cs : caller) : list coroutine :=
  completed_by i x ++ option_list (waiting cs) ++ todo cs.

(** The invariant of the executor. *)
Definition executor_ok (programs : list (list coroutine)) (x : executor) : Prop :=
  ∀ i, count_of i (ready x ++ in_flight x) = from_option load 0%nat (callers x !! i)
       ∧ programs !! i = account i x <$> callers x !! i.

End executor.

(** A radio whose volume read-out fails with the very error of the
    guard. *)
Definition liar_radio : External := {|
  World := nat;
  Handle := string;
  Value := string;
  afsapi_imported := true;
  AFSAPI_create base _ _ n := (S n, Return base);
  api_call _ m n :=
    (S n, match m with
          | GetVolume => Raise (RuntimeError "Not connected to a radio.")
          | _ => Return "Kitchen"
          end);
  gethostbyname name n := (n, Return name);
  py_bool v := v;
  py_int v := Return v;
|}.

Definition liar_start : @state liar_radio := @startup liar_radio 0%nat.

(** The liar after a successful [connect]. *)
Definition liar_connected : @state liar_radio :=
  (@connect liar_radio "192.168.0.153" 1234 2 liar_start).1.

(** ** Concrete runs *)

Example resolve_empty : _normalize_candidates "  " = Return [].
Proof. reflexivity. Qed.

Example resolve_with_port :
  _normalize_candidates "radio.local:8080/"
  = Return ["http://radio.local:8080/device"; "http://radio.local:8080/fsapi";
            "http://radio.local:8080"].
Proof. by vm_compute. Qed.

Example resolve_root_with_slash :
  _normalize_candidates " https://radio.local/device/ "
  = Return ["https://radio.local/device/"].
Proof. by vm_compute. Qed.

(** [split("//", 1)[1]] has nothing to return when only slashes follow the
    scheme. *)
Example resolve_scheme_only :
  _normalize_candidates "http://" = Raise (IndexError "list index out of range").
Proof. by vm_compute. Qed.

Example bench_connect_log :
  calls bench_connected
  = [@EvCreate bench_radio "http://192.168.0.153:80/device" 1234 2
       (Raise (Exc "ConnectionError" "Connection refused"));
     @EvCreate bench_radio "http://192.168.0.153:80/fsapi" 1234 2
       (Return "http://192.168.0.153:80/fsapi");
     @EvCall bench_radio "http://192.168.0.153:80/fsapi" GetFriendlyName
       (Return "Kitchen")]
  ∧ url_used (self bench_connected) = Some "http://192.168.0.153:80/fsapi".
Proof. by vm_compute. Qed.

Example bench_session :
  self (@run bench_radio
          [OpConnect "192.168.0.153" 1234 2; OpCommand GetVolume;
           OpCommand GetFriendlyName; OpIsConnected] bench_start)
  = self bench_connected
  ∧ self (@run bench_radio
            [OpConnect "192.168.0.153" 1234 2; OpCommand GetVolume;
             OpConnect "http://" 1234 2] bench_start)
    = @__init__ bench_radio.
Proof. by vm_compute. Qed.

(** ** The resolver: auxiliary facts *)

Section resolver_facts.

Lemma str_app_nil_l (s : string) : "" +:+ s = s.
Proof. reflexivity. Qed.

Lemma str_app_cons c (a s : string) : String c a +:+ s = String c (a +:+ s).
Proof. reflexivity. Qed.

Lemma str_app_nil_r (s : string) : s +:+ "" = s.
Proof. induction s as [|c s IH]; [done|]. by rewrite str_app_cons, IH. Qed.

Lemma str_app_assoc (a b c : string) : (a +:+ b) +:+ c = a +:+ b +:+ c.
Proof. induction a as [|x a IH]; [done|]. by rewrite !str_app_cons, IH. Qed.

Lemma strip_prefix_Some pre s rest :
  PyStr.strip_prefix pre s = Some rest → s = pre +:+ rest.
Proof.
  revert s. induction pre as [|a pre IH]; intros s; simpl.
  - rewrite str_app_nil_l. congruence.
  - destruct s as [|b s]; [done|].
    destruct (Ascii.eqb_spec a b) as [->|]; [|done].
    intros H. by rewrite str_app_cons, (IH _ H).
Qed.

Lemma strip_prefix_app pre s : PyStr.strip_prefix pre (pre +:+ s) = Some s.
Proof.
  induction pre as [|a pre IH]; [done|].
  rewrite str_app_cons. simpl. by rewrite Ascii.eqb_refl.
Qed.

Lemma startswith_true pre s :
  PyStr.startswith pre s = true ↔ ∃ rest, s = pre +:+ rest.
Proof.
  unfold PyStr.startswith. rewrite bool_decide_eq_true. split.
  - intros [rest H]. exists rest. by apply strip_prefix_Some.
  - intros [rest ->]. rewrite strip_prefix_app. by eexists.
Qed.

Lemma startswith_app pre s t :
  PyStr.startswith pre s = true → PyStr.startswith pre (s +:+ t) = true.
Proof.
  rewrite !startswith_true. intros [rest ->].
  exists (rest +:+ t). apply str_app_assoc.
Qed.

(** [rstrip] only removes characters at the end. *)
Lemma rstrip_prefix p s : ∃ t, s = PyStr.rstrip p s +:+ t.
Proof.
  induction s as [|c s [t IH]]; simpl; [by exists ""|].
  destruct (PyStr.rstrip p s) as [|d r] eqn:E.
  - destruct (p c); [by eexists|]. exists t. by rewrite str_app_cons, <-IH.
  - exists t. by rewrite str_app_cons, <-IH.
Qed.

(** Two prefixes of one string: one is a prefix of the other. *)
Lemma prefix_cases (a b x y : string) :
  a +:+ x = b +:+ y → (∃ z, a = b +:+ z) ∨ (∃ z, b = a +:+ z).
Proof.
  revert b. induction a as [|c a IH]; intros [|d b]; rewrite ?str_app_cons.
  - intros _. left. by exists "".
  - intros _. right. by eexists.
  - intros _. left. by eexists.
  - intros [= -> H]. destruct (IH _ H) as [[z ->]|[z ->]]; eauto.
Qed.

(** A match at the very end of [s] is found by [re.search]. *)
Lemma search_endswith r suf s :
  Re.matches r suf (λ _, true) = true →
  PyStr.endswith suf s = true → Re.search r s = true.
Proof.
  intros Hm. induction s as [|c s IH]; simpl.
  - rewrite orb_false_r. intros ->%String.eqb_eq.
    by rewrite Hm.
  - intros [->%String.eqb_eq | H]%orb_true_iff.
    + by rewrite Hm.
    + rewrite (IH H). apply orb_true_r.
Qed.

(** The dedupe loop only returns what it was given. *)
Lemma dedupe_elem_of candidates seen uniq c :
  c ∈ dedupe candidates seen uniq → c ∈ uniq ∨ c ∈ candidates.
Proof.
  revert seen uniq. induction candidates as [|d rest IH]; intros seen uniq; simpl.
  - auto.
  - destruct (decide (d ∈ seen)); intros Hc; apply IH in Hc.
    + destruct Hc; [by left|right; by apply list_elem_of_further].
    + rewrite elem_of_app, list_elem_of_singleton, elem_of_cons in *. tauto.
Qed.

(** ... and keeps what it has already collected. *)
Lemma dedupe_keeps candidates seen uniq c :
  c ∈ uniq → c ∈ dedupe candidates seen uniq.
Proof.
  revert seen uniq. induction candidates as [|d rest IH]; intros seen uniq Hc;
    simpl; [done|].
  destruct (decide (d ∈ seen)); apply IH; [done|].
  apply elem_of_app. by left.
Qed.

(** Every candidate survives the loop, as long as [seen] holds nothing
    that [uniq] lacks. *)
Lemma dedupe_complete candidates seen uniq c :
  (∀ x, x ∈ seen → x ∈ uniq) →
  c ∈ candidates → c ∈ dedupe candidates seen uniq.
Proof.
  revert seen uniq.
  induction candidates as [|d rest IH]; intros seen uniq Hinv Hc;
    [by apply elem_of_nil in Hc|].
  simpl. apply elem_of_cons in Hc.
  destruct (decide (d ∈ seen)) as [Hd|Hd].
  - destruct Hc as [->|Hc]; [apply dedupe_keeps|apply IH]; auto.
  - destruct Hc as [->|Hc].
    + apply dedupe_keeps, elem_of_app. right. by apply list_elem_of_singleton.
    + apply IH; [|done]. intros x [->%elem_of_singleton|Hx]%elem_of_union;
        apply elem_of_app; [right; by apply list_elem_of_singleton|left; auto].
Qed.

(** What the loop returns has no duplicates. *)
Lemma dedupe_NoDup candidates seen uniq :
  NoDup uniq → (∀ x, x ∈ uniq → x ∈ seen) →
  NoDup (dedupe candidates seen uniq).
Proof.
  revert seen uniq.
  induction candidates as [|d rest IH]; intros seen uniq Hnd Hinv; simpl;
    [done|].
  destruct (decide (d ∈ seen)) as [Hd|Hd]; [by apply IH|].
  apply IH.
  - apply NoDup_app. split; [done|]. split; [|apply NoDup_singleton].
    intros x Hx ->%list_elem_of_singleton. by apply Hd, Hinv.
  - intros x [Hx| ->%list_elem_of_singleton]%elem_of_app;
      apply elem_of_union; [right; auto|left; by apply elem_of_singleton].
Qed.

(** The candidates of the resolver are pairwise distinct. *)
Lemma _normalize_candidates_NoDup user_input l :
  _normalize_candidates user_input = Return l → NoDup l.
Proof.
  unfold _normalize_candidates.
  case_bool_decide; [intros [= <-]; constructor|].
  destruct (Re.search _ _); [intros [= <-]; apply NoDup_singleton|].
  destruct (list_index _ _) as [host_only|e]; [|done].
  assert (∀ d, NoDup d → Return d = Return l → NoDup l) as Haux
    by (by intros d Hd [= <-]).
  apply Haux, dedupe_NoDup; [constructor|].
  by intros x ?%elem_of_nil.
Qed.

(** A prefix of an https URL in which [//] occurs includes the scheme. *)
Lemma https_prefix_kept (hp t r : string) (ab : string * string) :
  hp +:+ t = "https://" +:+ r →
  PyStr.partition "//" hp = Some ab →
  PyStr.startswith "https://" hp = true.
Proof.
  intros [[z ->]|[z Hz]]%prefix_cases Hp.
  - apply startswith_true. by eexists.
  - repeat (destruct hp as [|? hp];
            [by vm_compute in Hp | rewrite str_app_cons in Hz; injection Hz as <- Hz]).
    destruct hp; [done | by rewrite str_app_cons in Hz].
Qed.

End resolver_facts.

(** ** The resolver: the specification's properties *)

(** C8: for the input 192.168.0.153 the resolver returns the three candidates
    host:80/device, host:80/fsapi and the bare host, in this order and
    without duplicates. *)
Theorem resolve_bare_ip :
  _normalize_candidates "192.168.0.153"
  = Return ["http://192.168.0.153:80/device"; "http://192.168.0.153:80/fsapi";
            "http://192.168.0.153"]
  ∧ NoDup ["http://192.168.0.153:80/device"; "http://192.168.0.153:80/fsapi";
           "http://192.168.0.153"].
Proof.
  split; [by vm_compute|].
  apply (bool_decide_unpack _). by vm_compute.
Qed.

(** C9: an input that, once trimmed and given a scheme, ends in /device or
    /fsapi (with or without a final slash) is returned as the only
    candidate. *)
Theorem resolve_explicit_root (user_input : string) :
  ends_in_root (with_scheme (PyStr.strip user_input)) = true →
  _normalize_candidates user_input
  = Return [with_scheme (PyStr.strip user_input)].
Proof.
  intros H. unfold _normalize_candidates.
  case_bool_decide as Hs; [by rewrite Hs in H|].
  assert (Re.search root_pattern (with_scheme (PyStr.strip user_input)) = true)
    as ->; [|done].
  unfold ends_in_root in H.
  repeat apply orb_true_iff in H as [H|H];
    by eapply search_endswith in H.
Qed.

Lemma resolve_explicit_root_witness :
  ends_in_root (with_scheme (PyStr.strip "10.0.0.5:8080/fsapi")) = true
  ∧ _normalize_candidates "10.0.0.5:8080/fsapi"
    = Return ["http://10.0.0.5:8080/fsapi"].
Proof.
  split; [reflexivity|].
  apply (resolve_explicit_root "10.0.0.5:8080/fsapi"). reflexivity.
Defined.

(** C10: an input whose trimmed form begins with https:// is not given an
    http:// prefix, and every candidate the resolver returns for it begins
    with https://.  (The resolver raises [IndexError] when nothing but
    slashes follows the scheme.) *)
Theorem resolve_keeps_https (user_input : string) :
  PyStr.startswith "https://" (PyStr.strip user_input) = true →
  with_scheme (PyStr.strip user_input) = PyStr.strip user_input
  ∧ match _normalize_candidates user_input with
    | Return l => l ≠ [] ∧ Forall (λ c, PyStr.startswith "https://" c = true) l
    | Raise e => e = IndexError "list index out of range"
    end.
Proof.
  intros Hs.
  assert (with_scheme (PyStr.strip user_input) = PyStr.strip user_input) as Hw.
  { unfold with_scheme. rewrite Hs. by rewrite orb_true_r. }
  split; [done|]. unfold _normalize_candidates. rewrite Hw.
  case_bool_decide as He; [by rewrite He in Hs|].
  destruct (Re.search _ _); [by split; [|constructor] |].
  destruct (rstrip_prefix (Ascii.eqb "/") (PyStr.strip user_input)) as [t Ht].
  apply startswith_true in Hs as [r Hr]. rewrite Hr in Ht at 1.
  revert Ht. generalize (PyStr.rstrip (Ascii.eqb "/") (PyStr.strip user_input)).
  intros hp Ht. unfold PyStr.split1, list_index.
  destruct (PyStr.partition "//" hp) as [[a b]|] eqn:Hp; cbn -[dedupe]; [|done].
  assert (PyStr.startswith "https://" hp = true) as Hhp
    by (by eapply https_prefix_kept).
  split.
  - intros Hnil.
    assert (hp ∈ dedupe [if PyStr.contains ":" b then hp +:+ "/device"
                         else hp +:+ ":80/device";
                         if PyStr.contains ":" b then hp +:+ "/fsapi"
                         else hp +:+ ":80/fsapi"; hp] ∅ []) as Hin.
    { apply dedupe_complete; [by intros x ?%not_elem_of_empty|].
      rewrite !elem_of_cons. auto. }
    rewrite Hnil in Hin. by apply elem_of_nil in Hin.
  - apply Forall_forall. intros c [Hc|Hc]%dedupe_elem_of;
      [by apply elem_of_nil in Hc|].
    rewrite !elem_of_cons, elem_of_nil in Hc.
    destruct Hc as [->|[->|[->|[]]]]; [| |done];
      destruct (PyStr.contains ":" b); by apply startswith_app.
Qed.

Lemma resolve_keeps_https_witness :
  PyStr.startswith "https://" (PyStr.strip " https://radio.local/ ") = true
  ∧ with_scheme (PyStr.strip " https://radio.local/ ") = "https://radio.local/"
  ∧ _normalize_candidates " https://radio.local/ "
    = Return ["https://radio.local:80/device"; "https://radio.local:80/fsapi";
              "https://radio.local"]
  ∧ Forall (λ c, PyStr.startswith "https://" c = true)
      ["https://radio.local:80/device"; "https://radio.local:80/fsapi";
       "https://radio.local"].
Proof.
  assert (_normalize_candidates " https://radio.local/ "
          = Return ["https://radio.local:80/device";
                    "https://radio.local:80/fsapi"; "https://radio.local"])
    as Hn by (vm_compute; reflexivity).
  pose proof (resolve_keeps_https " https://radio.local/ " eq_refl) as [Hw Hl].
  rewrite Hn in Hl. destruct Hl as [_ Hl].
  split; [reflexivity|]. split; [exact Hw|]. split; [exact Hn|exact Hl].
Defined.

(** ** The guard *)

Section guard.

Context `{External}.

Lemma is_connected_eq (σ : state) :
  is_connected σ
  = (σ, Return (_connected (self σ) && bool_decide (_api (self σ) ≠ None))).
Proof. reflexivity. Qed.

Lemma _require_not_connected (σ : state) :
  is_connected σ = (σ, Return false) →
  _require σ = (σ, Raise (RuntimeError "Not connected to a radio.")).
Proof. intros Hc. unfold _require, mbind, M_bind. by rewrite Hc. Qed.

Lemma _require_connected (σ : state) :
  is_connected σ = (σ, Return true) → _require σ = (σ, Return tt).
Proof. intros Hc. unfold _require, mbind, M_bind. by rewrite Hc. Qed.

Lemma command_not_connected (m : method Value) (σ : state) :
  is_connected σ = (σ, Return false) →
  command m σ = (σ, Raise (RuntimeError "Not connected to a radio.")).
Proof.
  intros Hc. apply _require_not_connected in Hc.
  destruct m; unfold command, get_friendly_name, get_power, set_power,
    get_volume, set_volume, get_modes, set_mode, get_presets, recall_preset,
    mbind, M_bind; by rewrite Hc.
Qed.

(** C3: each of the nine guarded operations, invoked while
    [is_connected()] is false, raises the not-connected error at once:
    the state is the one before the call, so nothing was sent to the
    library. *)
Theorem guard_not_connected (m : method Value) (σ : state) :
  is_connected σ = (σ, Return false) →
  command m σ = (σ, Raise (RuntimeError "Not connected to a radio."))
  ∧ calls (command m σ).1 = calls σ
  ∧ world (command m σ).1 = world σ.
Proof.
  intros Hc. by rewrite (command_not_connected m σ Hc).
Qed.

(** C6, as amended: when a guarded operation is invoked on a connected
    session and the forwarded library call raises, the operation raises
    that very exception, not an error of a kind of its own, and the
    object is left as it was: still connected, with the same handle and
    the same active URL. *)
Theorem device_call_failed (m : method Value) (σ : state) (api : Handle)
    (e : exception) (w' : World) :
  is_connected σ = (σ, Return true) →
  _api (self σ) = Some api →
  api_call api m (world σ) = (w', Raise e) →
  let σ' := {| self := self σ; world := w';
               calls := calls σ ++ [EvCall api m (Raise e)] |} in
  command m σ = (σ', Raise e)
  ∧ self σ' = self σ
  ∧ is_connected σ' = (σ', Return true).
Proof.
  intros Hc Hapi Hcall σ'. split; [|split; [done|]].
  - apply _require_connected in Hc.
    destruct m; unfold command, get_friendly_name, get_power, set_power,
      get_volume, set_volume, get_modes, set_mode, get_presets, recall_preset,
      _run_coro, await_self_api, mbind, M_bind; rewrite Hc; cbn;
      rewrite Hapi; unfold await_call; by rewrite Hcall.
  - rewrite is_connected_eq in Hc. injection Hc as Hb.
    rewrite is_connected_eq. subst σ'. cbn. by rewrite Hb.
Qed.

End guard.

Lemma guard_not_connected_witness :
  @is_connected bench_radio bench_start = (bench_start, Return false)
  ∧ @command bench_radio GetVolume bench_start
    = (bench_start, Raise (RuntimeError "Not connected to a radio."))
  ∧ calls (@command bench_radio GetVolume bench_start).1 = []
  ∧ world (@command bench_radio GetVolume bench_start).1 = 0%nat.
Proof.
  split; [reflexivity|].
  apply (@guard_not_connected bench_radio GetVolume bench_start).
  reflexivity.
Defined.

Lemma device_call_failed_witness :
  (@is_connected bench_radio bench_connected = (bench_connected, Return true)
   ∧ _api (self bench_connected) = Some "http://192.168.0.153:80/fsapi"
   ∧ @api_call bench_radio "http://192.168.0.153:80/fsapi" GetVolume
       (world bench_connected)
     = (4%nat, Raise (Exc "TimeoutError" "timed out")))
  ∧ (@command bench_radio GetVolume bench_connected).2
    = Raise (Exc "TimeoutError" "timed out")
  ∧ self (@command bench_radio GetVolume bench_connected).1
    = self bench_connected
  ∧ @is_connected bench_radio (@command bench_radio GetVolume bench_connected).1
    = ((@command bench_radio GetVolume bench_connected).1, Return true).
Proof.
  split.
  - repeat split; vm_compute; reflexivity.
  - destruct (@device_call_failed bench_radio GetVolume bench_connected
                "http://192.168.0.153:80/fsapi"
                (Exc "TimeoutError" "timed out") 4%nat)
      as (Hc & Hs & Hi); try (vm_compute; reflexivity).
    rewrite Hc. split; [reflexivity|]. split; [exact Hs|exact Hi].
Defined.

(** ** Connecting *)

Section connecting.

Context `{External}.

Lemma last_error_last errs : last_error None errs = last errs.
Proof.
  induction errs as [|e errs IH] using rev_ind; [done|].
  unfold last_error. by rewrite foldl_app, last_snoc.
Qed.

Lemma created_app log1 log2 :
  created (log1 ++ log2) = created log1 ++ created log2.
Proof. apply omap_app. Qed.

(** The DNS check touches the world only, and only the world matters to
    it. *)
Lemma dns_check_frame user_url σ :
  ∃ w, ∀ s log,
    dns_check user_url {| self := s; world := world σ; calls := log |}
    = ({| self := s; world := w; calls := log |}, Return tt).
Proof.
  unfold dns_check, try_except, mbind, M_bind, of_outcome, mret, M_ret,
    socket_gethostbyname.
  destruct (PyStr.startswith "http" user_url);
    repeat match goal with
           | |- context [list_index ?l ?i] =>
               destruct (list_index l i); cbn
           end;
    try (by eexists);
    destruct (gethostbyname _ (world σ)); by eexists.
Qed.

Lemma dns_check_eq user_url σ s log :
  dns_check user_url {| self := s; world := world σ; calls := log |}
  = ({| self := s; world := world (dns_check user_url σ).1; calls := log |},
     Return tt).
Proof.
  destruct (dns_check_frame user_url σ) as [w Hw].
  rewrite Hw. destruct σ as [s0 w0 log0]. cbn [world] in Hw.
  by rewrite Hw.
Qed.

(** [connect], once the library is known to be there, as the loop run
    from the reset state. *)
Lemma connect_unfold user_url pin' timeout' σ :
  afsapi_imported = true →
  connect user_url pin' timeout' σ
  = match _normalize_candidates user_url with
    | Raise e => (reset_state user_url pin' timeout' σ, Raise e)
    | Return candidates =>
        match connect_loop candidates None
                (reset_state user_url pin' timeout' σ) with
        | (σ', Return last_err) =>
            if negb (_connected (self σ'))
            then (σ', Raise (RuntimeError
                   ("Could not connect to the radio. " +:+ "Tried: "
                    +:+ PyStr.join ", " candidates +:+ ". Last error: "
                    +:+ str_of last_err)))
            else (σ', Return tt)
        | (σ', Raise e) => (σ', Raise e)
        end
    end.
Proof.
  intros Himp. unfold connect. rewrite Himp. cbn [negb].
  unfold mbind, M_bind, set_self, of_outcome, get_self. cbn.
  rewrite dns_check_eq. cbn. fold (reset_state user_url pin' timeout' σ).
  destruct (_normalize_candidates user_url) as [candidates|e]; [|done].
  destruct (connect_loop _ _ _) as [σ' [last_err|e]]; [|done].
  by destruct (_connected (self σ')).
Qed.

(** One turn of the loop on a candidate that fails. *)
Lemma connect_loop_fail base rest last_err σ w' e :
  attempt base (pin (self σ)) (timeout (self σ)) (world σ) = (w', Raise e) →
  ∃ log,
    connect_loop (base :: rest) last_err σ
    = connect_loop rest (Some e)
        {| self := self σ; world := w'; calls := calls σ ++ log |}
    ∧ created log = [base].
Proof.
  unfold attempt. cbn [connect_loop].
  unfold try_except, _run_coro, _create, await_create, await_call, get_self,
    set_self, mbind, M_bind, mret, M_ret. cbn.
  destruct (AFSAPI_create _ _ _ _) as [w1 [api|e1]]; cbn.
  - destruct (api_call _ _ _) as [w2 [name|e2]]; cbn; [done|].
    intros [= -> ->]. eexists [_; _]. by rewrite <-app_assoc.
  - intros [= -> ->]. by eexists [_].
Qed.

(** One turn of the loop on a candidate that answers. *)
Lemma connect_loop_success base rest last_err σ w' api :
  attempt base (pin (self σ)) (timeout (self σ)) (world σ) = (w', Return api) →
  ∃ name,
    connect_loop (base :: rest) last_err σ
    = ({| self := {| _api := Some api; _connected := true;
                     url_used := Some base;
                     pin := pin (self σ); timeout := timeout (self σ) |};
          world := w';
          calls := calls σ
                   ++ [EvCreate base (pin (self σ)) (timeout (self σ))
                         (Return api);
                       EvCall api GetFriendlyName (Return name)] |},
       Return last_err).
Proof.
  unfold attempt. cbn [connect_loop].
  unfold try_except, _run_coro, _create, await_create, await_call, get_self,
    set_self, mbind, M_bind, mret, M_ret. cbn.
  destruct (AFSAPI_create _ _ _ _) as [w1 [api1|e1]]; cbn; [|done].
  destruct (api_call _ _ _) as [w2 [name|e2]]; cbn; [|done].
  intros [= -> ->]. exists name. by rewrite <-app_assoc.
Qed.

(** The loop over candidates that all fail. *)
Lemma connect_loop_all_fail candidates last_err σ w' errs :
  all_fail candidates (pin (self σ)) (timeout (self σ)) (world σ)
  = Some (w', errs) →
  ∃ log,
    connect_loop candidates last_err σ
    = ({| self := self σ; world := w'; calls := calls σ ++ log |},
       Return (last_error last_err errs))
    ∧ created log = candidates.
Proof.
  revert last_err σ errs.
  induction candidates as [|base rest IH]; intros last_err σ errs;
    cbn [all_fail].
  - intros [= <- <-]. exists []. rewrite app_nil_r. by destruct σ.
  - destruct (attempt _ _ _ _) as [w1 [api|e]] eqn:Ha; [done|].
    destruct (all_fail _ _ _ _) as [[w2 errs']|] eqn:Hrest; [|done].
    intros [= <- <-].
    destruct (connect_loop_fail _ rest last_err _ _ _ Ha) as (log1 & -> & Hl1).
    destruct (IH (Some e) {| self := self σ; world := w1;
                             calls := calls σ ++ log1 |} errs' Hrest)
      as (log2 & -> & Hl2).
    exists (log1 ++ log2). cbn. rewrite app_assoc. split; [done|].
    by rewrite created_app, Hl1, Hl2.
Qed.

(** The loop over candidates that fail up to one that answers: what
    follows that one is not looked at. *)
Lemma connect_loop_first_success before k after last_err σ w_k errs w' api :
  all_fail before (pin (self σ)) (timeout (self σ)) (world σ)
  = Some (w_k, errs) →
  attempt k (pin (self σ)) (timeout (self σ)) w_k = (w', Return api) →
  ∃ log,
    connect_loop (before ++ k :: after) last_err σ
    = ({| self := {| _api := Some api; _connected := true;
                     url_used := Some k;
                     pin := pin (self σ); timeout := timeout (self σ) |};
          world := w'; calls := calls σ ++ log |},
       Return (last_error last_err errs))
    ∧ created log = before ++ [k].
Proof.
  revert last_err σ errs.
  induction before as [|base rest IH]; intros last_err σ errs;
    cbn [all_fail app].
  - intros [= <- <-] Hk.
    destruct (connect_loop_success _ after last_err _ _ _ Hk) as [name ->].
    by eexists [_; _].
  - destruct (attempt base _ _ _) as [w1 [api1|e]] eqn:Ha; [done|].
    destruct (all_fail _ _ _ _) as [[w2 errs']|] eqn:Hrest; [|done].
    intros [= <- <-] Hk.
    destruct (connect_loop_fail _ (rest ++ k :: after) last_err _ _ _ Ha)
      as (log1 & -> & Hl1).
    destruct (IH (Some e) {| self := self σ; world := w1;
                             calls := calls σ ++ log1 |} errs' Hrest Hk)
      as (log2 & -> & Hl2).
    exists (log1 ++ log2). cbn. rewrite app_assoc. split; [done|].
    by rewrite created_app, Hl1, Hl2.
Qed.

(** C1: when the candidates before [k] all fail and [k] is the first for
    which creation and probe both succeed, [connect] returns with
    [url_used] set to [k] and the session connected on the handle
    created for [k]; the base URLs it handed to the library are the
    candidates up to [k], in order, and none of those after [k]. *)
Theorem connect_first_success (user_url : string) (pin' timeout' : Z)
    (σ : state) (before : list string) (k : string) (after : list string)
    (w_k : World) (errs : list exception) (w' : World) (api : Handle) :
  afsapi_imported = true →
  _normalize_candidates user_url = Return (before ++ k :: after) →
  all_fail before pin' timeout' (world (dns_check user_url σ).1)
  = Some (w_k, errs) →
  attempt k pin' timeout' w_k = (w', Return api) →
  ∃ σ',
    connect user_url pin' timeout' σ = (σ', Return tt)
    ∧ url_used (self σ') = Some k
    ∧ _connected (self σ') = true
    ∧ _api (self σ') = Some api
    ∧ is_connected σ' = (σ', Return true)
    ∧ created (calls σ') = created (calls σ) ++ before ++ [k]
    ∧ Forall (λ c, c ∉ before ++ [k]) after.
Proof.
  intros Himp Hcands Hfail Hk.
  assert (Forall (λ c, c ∉ before ++ [k]) after) as Hafter.
  { apply _normalize_candidates_NoDup in Hcands.
    rewrite (assoc_L (++) before [k] after : before ++ k :: after = _) in Hcands.
    apply NoDup_app in Hcands as (_ & Hdisj & _).
    apply Forall_forall. intros c Hc Hin. by apply (Hdisj c). }
  rewrite (connect_unfold _ _ _ _ Himp), Hcands.
  destruct (connect_loop_first_success before k after None
              (reset_state user_url pin' timeout' σ) _ _ _ _ Hfail Hk)
    as (log & -> & Hlog).
  cbn. eexists. split; [done|]. cbn -[created].
  by rewrite created_app, Hlog.
Qed.

(** C2: when every candidate fails, [connect] raises the error whose
    message lists all the candidates and ends with the error of the last
    attempt; every candidate was tried, so no failure left the loop
    early; and afterwards [is_connected()] is false. *)
Theorem connect_all_fail (user_url : string) (pin' timeout' : Z) (σ : state)
    (candidates : list string) (w' : World) (errs : list exception) :
  afsapi_imported = true →
  _normalize_candidates user_url = Return candidates →
  all_fail candidates pin' timeout' (world (dns_check user_url σ).1)
  = Some (w', errs) →
  ∃ σ',
    connect user_url pin' timeout' σ
    = (σ', Raise (RuntimeError
             ("Could not connect to the radio. Tried: "
              +:+ PyStr.join ", " candidates +:+ ". Last error: "
              +:+ str_of (last errs))))
    ∧ created (calls σ') = created (calls σ) ++ candidates
    ∧ length errs = length candidates
    ∧ is_connected σ' = (σ', Return false)
    ∧ _api (self σ') = None
    ∧ url_used (self σ') = None.
Proof.
  intros Himp Hcands Hfail.
  rewrite (connect_unfold _ _ _ _ Himp), Hcands.
  destruct (connect_loop_all_fail candidates None
              (reset_state user_url pin' timeout' σ) _ _ Hfail)
    as (log & -> & Hlog).
  cbn. rewrite last_error_last. eexists. split; [done|]. cbn -[created].
  rewrite created_app, Hlog. split; [done|]. split; [|done].
  clear -Hfail. revert errs Hfail.
  generalize (world (dns_check user_url σ).1).
  induction candidates as [|base rest IH]; intros w errs; cbn.
  - by intros [= <- <-].
  - destruct (attempt _ _ _ _) as [w1 [api|e]]; [done|].
    destruct (all_fail _ _ _ _) as [[w2 errs']|] eqn:Hrest; [|done].
    intros [= <- <-]. cbn. f_equal. by eapply IH.
Qed.

End connecting.

Lemma connect_first_success_witness :
  (@afsapi_imported bench_radio = true
   ∧ _normalize_candidates "192.168.0.153"
     = Return (["http://192.168.0.153:80/device"]
               ++ "http://192.168.0.153:80/fsapi" :: ["http://192.168.0.153"])
   ∧ @all_fail bench_radio ["http://192.168.0.153:80/device"] 1234 2
       (world (@dns_check bench_radio "192.168.0.153" bench_start).1)
     = Some (1%nat, [Exc "ConnectionError" "Connection refused"])
   ∧ @attempt bench_radio "http://192.168.0.153:80/fsapi" 1234 2 1%nat
     = (3%nat, Return "http://192.168.0.153:80/fsapi"))
  ∧ ∃ σ',
      @connect bench_radio "192.168.0.153" 1234 2 bench_start
      = (σ', Return tt)
      ∧ url_used (self σ') = Some "http://192.168.0.153:80/fsapi"
      ∧ _connected (self σ') = true
      ∧ _api (self σ') = Some "http://192.168.0.153:80/fsapi"
      ∧ is_connected σ' = (σ', Return true)
      ∧ created (calls σ')
        = created (calls bench_start)
          ++ ["http://192.168.0.153:80/device"]
          ++ ["http://192.168.0.153:80/fsapi"]
      ∧ Forall (λ c, c ∉ ["http://192.168.0.153:80/device"]
                         ++ ["http://192.168.0.153:80/fsapi"])
          ["http://192.168.0.153"].
Proof.
  split.
  - repeat split; vm_compute; reflexivity.
  - apply (@connect_first_success bench_radio "192.168.0.153" 1234 2
             bench_start ["http://192.168.0.153:80/device"]
             "http://192.168.0.153:80/fsapi" ["http://192.168.0.153"]
             1%nat [Exc "ConnectionError" "Connection refused"] 3%nat
             "http://192.168.0.153:80/fsapi");
      vm_compute; reflexivity.
Defined.

Lemma connect_all_fail_witness :
  (@afsapi_imported dead_radio = true
   ∧ _normalize_candidates "radio.local:8080"
     = Return ["http://radio.local:8080/device";
               "http://radio.local:8080/fsapi"; "http://radio.local:8080"]
   ∧ @all_fail dead_radio
       ["http://radio.local:8080/device"; "http://radio.local:8080/fsapi";
        "http://radio.local:8080"] 1234 2
       (world (@dns_check dead_radio "radio.local:8080" dead_start).1)
     = Some (3%nat,
             [Exc "ConnectionError"
                "Cannot connect to http://radio.local:8080/device";
              Exc "ConnectionError"
                "Cannot connect to http://radio.local:8080/fsapi";
              Exc "ConnectionError"
                "Cannot connect to http://radio.local:8080"]))
  ∧ ∃ σ',
      @connect dead_radio "radio.local:8080" 1234 2 dead_start
      = (σ', Raise (RuntimeError
          "Could not connect to the radio. Tried: http://radio.local:8080/device, http://radio.local:8080/fsapi, http://radio.local:8080. Last error: Cannot connect to http://radio.local:8080"))
      ∧ created (calls σ')
        = ["http://radio.local:8080/device"; "http://radio.local:8080/fsapi";
           "http://radio.local:8080"]
      ∧ is_connected σ' = (σ', Return false).
Proof.
  split.
  - repeat split; vm_compute; reflexivity.
  - destruct (@connect_all_fail dead_radio "radio.local:8080" 1234 2
                dead_start
                ["http://radio.local:8080/device";
                 "http://radio.local:8080/fsapi"; "http://radio.local:8080"]
                3%nat
                [Exc "ConnectionError"
                   "Cannot connect to http://radio.local:8080/device";
                 Exc "ConnectionError"
                   "Cannot connect to http://radio.local:8080/fsapi";
                 Exc "ConnectionError"
                   "Cannot connect to http://radio.local:8080"])
      as (σ' & Hc & Hlog & _ & Hn & _); try (vm_compute; reflexivity).
    exists σ'. split; [exact Hc|]. split; [exact Hlog|exact Hn].
Defined.

(** ** Disconnecting, and the invariant of the session *)

Section lifecycle.

Context `{External}.

(** C5: [disconnect()] clears the session whatever it was and touches
    nothing else; afterwards [is_connected()] is false and each of the
    nine guarded operations raises the not-connected error without
    changing the state; a second [disconnect()] changes nothing. *)
Theorem disconnect_clears (σ : state) :
  let σ' := (disconnect σ).1 in
  disconnect σ = (σ', Return tt)
  ∧ _api (self σ') = None
  ∧ _connected (self σ') = false
  ∧ url_used (self σ') = None
  ∧ world σ' = world σ
  ∧ calls σ' = calls σ
  ∧ is_connected σ' = (σ', Return false)
  ∧ (∀ m, command m σ'
          = (σ', Raise (RuntimeError "Not connected to a radio.")))
  ∧ disconnect σ' = (σ', Return tt).
Proof.
  repeat split. intros m. by apply command_not_connected.
Qed.

Lemma last_probed_app url api log log' :
  last_probed url api log →
  Forall (λ ev, is_create ev = false) log' →
  last_probed url api (log ++ log').
Proof.
  intros (before & after & p & t & name & -> & Hafter) Hlog'.
  exists before, (after ++ log'), p, t, name. split.
  - by rewrite <-app_assoc.
  - by apply Forall_app.
Qed.

(** A guarded operation leaves the object alone and sends the library
    at most commands, never a creation. *)
Lemma command_frame (m : method Value) (σ : state) :
  ∃ log,
    self (command m σ).1 = self σ
    ∧ calls (command m σ).1 = calls σ ++ log
    ∧ Forall (λ ev, is_create ev = false) log.
Proof.
  destruct (_connected (self σ) && bool_decide (_api (self σ) ≠ None))
    eqn:Hc.
  - assert (_require σ = (σ, Return tt)) as Hr
      by (apply _require_connected; by rewrite is_connected_eq, Hc).
    destruct m; unfold command, get_friendly_name, get_power, set_power,
      get_volume, set_volume, get_modes, set_mode, get_presets, recall_preset,
      _run_coro, await_self_api, mbind, M_bind; rewrite Hr; cbn;
      (destruct (_api (self σ)) as [api|];
       [|exists []; by rewrite app_nil_r]);
      unfold await_call;
      destruct (api_call _ _ _) as [w [v|e]]; cbn;
      try destruct (py_int v); cbn;
      eexists [_]; by repeat constructor.
  - exists []. rewrite command_not_connected, app_nil_r;
      [done | by rewrite is_connected_eq, Hc].
Qed.

Lemma command_session_ok (m : method Value) (σ : state) :
  session_ok σ → session_ok (command m σ).1.
Proof.
  destruct (command_frame m σ) as (log & Hself & Hcalls & Hlog).
  unfold session_ok. rewrite Hself, Hcalls.
  destruct (_api (self σ)), (_connected (self σ)), (url_used (self σ));
    try done.
  intros Hp. by apply last_probed_app.
Qed.

(** The fallback loop, started on a cleared session, ends on a session
    that satisfies the invariant, and it never raises. *)
Lemma connect_loop_session_ok candidates last_err (σ : state) :
  _api (self σ) = None → _connected (self σ) = false →
  url_used (self σ) = None →
  session_ok (connect_loop candidates last_err σ).1
  ∧ ∃ r, (connect_loop candidates last_err σ).2 = Return r.
Proof.
  revert last_err σ.
  induction candidates as [|base rest IH]; intros last_err σ Ha Hc Hu.
  - cbn. unfold session_ok. rewrite Ha, Hc, Hu. eauto.
  - destruct (attempt base (pin (self σ)) (timeout (self σ)) (world σ))
      as [w' [api|e]] eqn:Hat.
    + destruct (connect_loop_success _ rest last_err _ _ _ Hat) as [name ->].
      split; [|by eexists]. unfold session_ok. cbn.
      exists (calls σ), [], (pin (self σ)), (timeout (self σ)), name.
      by split.
    + destruct (connect_loop_fail _ rest last_err _ _ _ Hat) as (log & -> & _).
      by apply IH.
Qed.

Lemma connect_session_ok user_url pin' timeout' (σ : state) :
  session_ok σ → session_ok (connect user_url pin' timeout' σ).1.
Proof.
  intros Hσ. destruct afsapi_imported eqn:Himp.
  - rewrite (connect_unfold _ _ _ _ Himp).
    destruct (_normalize_candidates user_url) as [candidates|e]; [|done].
    destruct (connect_loop_session_ok candidates None
                (reset_state user_url pin' timeout' σ)) as [Hok _]; try done.
    destruct (connect_loop _ _ _) as [σ' [last_err|e]]; [|done].
    by destruct (_connected (self σ')).
  - unfold connect. by rewrite Himp.
Qed.

Lemma perform_session_ok (o : operation) (σ : state) :
  session_ok σ → session_ok (perform o σ).
Proof.
  destruct o; cbn [perform].
  - apply connect_session_ok.
  - done.
  - done.
  - apply command_session_ok.
Qed.

Lemma run_session_ok (ops : list operation) (σ : state) :
  session_ok σ → session_ok (run ops σ).
Proof.
  revert σ. induction ops as [|o ops IH]; intros σ Hσ; [done|].
  apply IH. by apply perform_session_ok.
Qed.

(** C4: after any sequence of public operations from start-up -
    [connect], [disconnect], [is_connected] and the nine guarded
    operations - the session is connected exactly when it holds a handle
    that the latest creation returned and whose probe succeeded, and
    [url_used] is set exactly when the session is connected; the URL is
    the one that handle was created for, and [is_connected()] reports
    the flag. *)
Theorem session_invariant (w : World) (ops : list operation) :
  let σ := run ops (startup w) in
  (_connected (self σ) = true
   ↔ ∃ api, _api (self σ) = Some api ∧ ∃ url, last_probed url api (calls σ))
  ∧ (is_Some (url_used (self σ)) ↔ _connected (self σ) = true)
  ∧ (∀ url api, url_used (self σ) = Some url → _api (self σ) = Some api →
                last_probed url api (calls σ))
  ∧ is_connected σ = (σ, Return (_connected (self σ))).
Proof.
  intros σ. assert (session_ok σ) as Hok by (by apply run_session_ok).
  rewrite is_connected_eq. revert Hok. unfold session_ok.
  generalize (calls σ). intros log.
  destruct (_api (self σ)) as [api|], (_connected (self σ)),
    (url_used (self σ)) as [url|]; try done; intros Hok.
  - repeat split; eauto. by intros ?? [= <-] [= <-].
  - repeat split; try done. by intros (? & ? & _).
Qed.

End lifecycle.

(** ** More on the resolver *)

Section resolver_more.

Lemma rstrip_cons p c s :
  PyStr.rstrip p (String c s)
  = match PyStr.rstrip p s with
    | "" => if p c then "" else String c ""
    | r => String c r
    end.
Proof. reflexivity. Qed.

Lemma rstrip_idem p s : PyStr.rstrip p (PyStr.rstrip p s) = PyStr.rstrip p s.
Proof.
  induction s as [|c s IH]; [done|]. rewrite (rstrip_cons p c s).
  destruct (PyStr.rstrip p s) as [|d r] eqn:E.
  - destruct (p c) eqn:Ec; [done|]. rewrite rstrip_cons. cbn. by rewrite Ec.
  - by rewrite rstrip_cons, IH.
Qed.

(** What [rstrip] leaves begins like the string it was given. *)
Lemma rstrip_head p c s :
  PyStr.rstrip p (String c s) = "" ∨ ∃ r, PyStr.rstrip p (String c s) = String c r.
Proof.
  rewrite rstrip_cons. destruct (PyStr.rstrip p s); [destruct (p c)|]; eauto.
Qed.

Lemma lstrip_head p s :
  PyStr.lstrip p s = "" ∨ ∃ c r, PyStr.lstrip p s = String c r ∧ p c = false.
Proof.
  induction s as [|c s IH]; [by left|]. cbn.
  destruct (p c) eqn:E; [done|]. right. eauto.
Qed.

Lemma strip_idem s : PyStr.strip (PyStr.strip s) = PyStr.strip s.
Proof.
  unfold PyStr.strip.
  destruct (lstrip_head PyStr.isspace s) as [->|(c & r & -> & Hc)]; [done|].
  destruct (rstrip_head PyStr.isspace c r) as [->|[r' Hr]]; [done|].
  rewrite Hr. cbn [PyStr.lstrip]. rewrite Hc, <-Hr. apply rstrip_idem.
Qed.

(** [rstrip] leaves alone a string whose end it leaves alone. *)
Lemma rstrip_app p a b :
  PyStr.rstrip p b = b → b ≠ "" → PyStr.rstrip p (a +:+ b) = a +:+ b.
Proof.
  intros Hb Hne. induction a as [|c a IH]; [done|].
  rewrite str_app_cons, rstrip_cons, IH.
  destruct (a +:+ b) eqn:E; [|done].
  destruct a; [by rewrite str_app_nil_l in E | by rewrite str_app_cons in E].
Qed.

Lemma endswith_true suf s :
  PyStr.endswith suf s = true → ∃ a, s = a +:+ suf.
Proof.
  induction s as [|c s IH]; cbn.
  - rewrite orb_false_r. intros ->%String.eqb_eq. by exists "".
  - intros [->%String.eqb_eq|[a ->]%IH]%orb_true_iff; [by exists ""|].
    by exists (String c a).
Qed.

Lemma endswith_app suf a : PyStr.endswith suf (a +:+ suf) = true.
Proof.
  induction a as [|c a IH].
  - rewrite str_app_nil_l.
    destruct suf; cbn [PyStr.endswith]; by rewrite String.eqb_refl.
  - rewrite str_app_cons. cbn [PyStr.endswith]. rewrite IH. apply orb_true_r.
Qed.

Lemma dedupe_distinct3 (a b c : string) :
  a ≠ b → a ≠ c → b ≠ c → dedupe [a; b; c] ∅ [] = [a; b; c].
Proof.
  intros Hab Hac Hbc. cbn.
  rewrite !decide_False; [done|..];
    rewrite ?elem_of_union, ?elem_of_singleton, ?elem_of_empty;
    intuition congruence.
Qed.

(** The shape of what the resolver returns; [dedupe] has nothing to
    remove. *)
Lemma _normalize_candidates_cases user_input :
  let s := with_scheme (PyStr.strip user_input) in
  let host_port := PyStr.rstrip (Ascii.eqb "/") s in
  (PyStr.strip user_input = "" ∧ _normalize_candidates user_input = Return [])
  ∨ (PyStr.strip user_input ≠ "" ∧ Re.search root_pattern s = true
     ∧ _normalize_candidates user_input = Return [s])
  ∨ (PyStr.strip user_input ≠ "" ∧ Re.search root_pattern s = false
     ∧ PyStr.partition "//" host_port = None
     ∧ _normalize_candidates user_input
       = Raise (IndexError "list index out of range"))
  ∨ (PyStr.strip user_input ≠ "" ∧ Re.search root_pattern s = false
     ∧ ∃ before host_only port,
         PyStr.partition "//" host_port = Some (before, host_only)
         ∧ port = (if PyStr.contains ":" host_only then "" else ":80")
         ∧ _normalize_candidates user_input
           = Return [host_port +:+ port +:+ "/device";
                     host_port +:+ port +:+ "/fsapi"; host_port]).
Proof.
  intros s host_port. unfold _normalize_candidates.
  case_bool_decide as He; [by left|]. right. fold s.
  destruct (Re.search root_pattern s) eqn:Hs; [by left|]. right. fold host_port.
  unfold PyStr.split1, list_index.
  destruct (PyStr.partition "//" host_port) as [[before host_only]|] eqn:Hp;
    cbn -[dedupe]; [right|by left].
  split; [done|]. split; [done|].
  exists before, host_only, (if PyStr.contains ":" host_only then "" else ":80").
  split; [done|]. split; [done|]. f_equal.
  assert (∀ x : string, x ≠ "" → host_port +:+ x ≠ host_port) as Hx.
  { intros x Hx Heq. apply Hx.
    rewrite <-(str_app_nil_r host_port) in Heq at 2.
    by apply (inj (String.app host_port)) in Heq. }
  destruct (PyStr.contains ":" host_only); rewrite ?str_app_nil_l;
    rewrite dedupe_distinct3; try done;
    try (by apply Hx);
    by intros ?%(inj (String.app host_port)).
Qed.

(** What [rstrip] leaves does not end in a character it removes. *)
Lemma rstrip_last p s a c :
  PyStr.rstrip p s = a +:+ String c "" → p c = false.
Proof.
  revert a. induction s as [|d s IH]; intros a.
  - cbn. destruct a; [by rewrite str_app_nil_l|by rewrite str_app_cons].
  - rewrite rstrip_cons. destruct (PyStr.rstrip p s) as [|e r] eqn:E.
    + destruct (p d) eqn:Ed.
      * destruct a; [by rewrite str_app_nil_l|by rewrite str_app_cons].
      * destruct a as [|x a]; rewrite ?str_app_nil_l, ?str_app_cons.
        -- by intros [= <-].
        -- intros [= _ Ha]. destruct a; by rewrite ?str_app_cons in Ha.
    + destruct a as [|x a]; rewrite ?str_app_nil_l, ?str_app_cons; [done|].
      intros [= _ Ha]. by apply (IH a).
Qed.

(** The last character of a non-empty string is the last character of
    whatever it is appended to. *)
Lemma app_last_inv (a t b : string) c :
  a +:+ t = b +:+ String c "" → t ≠ "" → ∃ t', t = t' +:+ String c "".
Proof.
  revert b. induction a as [|x a IH]; intros b; rewrite ?str_app_nil_l.
  - intros -> _. by exists b.
  - rewrite str_app_cons. destruct b as [|y b];
      rewrite ?str_app_nil_l, ?str_app_cons.
    + intros [= _ Ha] Ht. destruct a, t; try done.
    + intros [= _ Ha]. by apply (IH b).
Qed.

(** A match of the pattern at the start of [s] is one of eight strings. *)
Lemma matches_root_inv s :
  Re.matches root_pattern s (λ _, true) = true →
  ends_in_root s = true
  ∨ ∃ s', s = s' +:+ String "010" "" ∧ ends_in_root s' = true.
Proof.
  cbn [root_pattern Re.matches].
  destruct (PyStr.strip_prefix "/" s) as [r0|] eqn:E0; [|done].
  apply strip_prefix_Some in E0 as ->.
  assert (∀ r, Re.at_end r = true → r = "" ∨ r = String "010" "") as Hend.
  { intros [|c [|d r]]; cbn; [by left| |done].
    intros ->%Ascii.eqb_eq. by right. }
  assert (∀ r1, (match PyStr.strip_prefix "/" r1 with
                 | Some rest => Re.at_end rest && true
                 | None => false
                 end || Re.at_end r1 && true) = true →
                r1 = "" ∨ r1 = "/" ∨ r1 = String "010" ""
                ∨ r1 = String "/" (String "010" "")) as Htail.
  { intros r1 [H|H]%orb_true_iff.
    - destruct (PyStr.strip_prefix "/" r1) as [r2|] eqn:E2; [|done].
      apply strip_prefix_Some in E2 as ->. rewrite andb_true_r in H.
      destruct (Hend _ H) as [-> | ->]; auto.
    - rewrite andb_true_r in H. destruct (Hend _ H) as [-> | ->]; auto. }
  intros [H|H]%orb_true_iff.
  - destruct (PyStr.strip_prefix "device" r0) as [r1|] eqn:E1; [|done].
    apply strip_prefix_Some in E1 as ->.
    destruct (Htail _ H) as [->|[->|[->| ->]]];
      [by left|by left|right|right];
      [by exists "/device"|by exists "/device/"].
  - destruct (PyStr.strip_prefix "fsapi" r0) as [r1|] eqn:E1; [|done].
    apply strip_prefix_Some in E1 as ->.
    destruct (Htail _ H) as [->|[->|[->| ->]]];
      [by left|by left|right|right];
      [by exists "/fsapi"|by exists "/fsapi/"].
Qed.

Lemma ends_in_root_cons c s : ends_in_root s = true → ends_in_root (String c s) = true.
Proof.
  unfold ends_in_root. rewrite !orb_true_iff. cbn [PyStr.endswith].
  rewrite !orb_true_iff. tauto.
Qed.

Lemma search_root_inv s :
  Re.search root_pattern s = true →
  ends_in_root s = true
  ∨ ∃ s', s = s' +:+ String "010" "" ∧ ends_in_root s' = true.
Proof.
  induction s as [|c s IH]; cbn [Re.search].
  - rewrite orb_false_r. apply matches_root_inv.
  - intros [H|H]%orb_true_iff; [by apply matches_root_inv|].
    destruct (IH H) as [He|(s' & -> & He)].
    + left. by apply ends_in_root_cons.
    + right. exists (String c s'). split; [done|]. by apply ends_in_root_cons.
Qed.

Lemma ends_in_root_search s : ends_in_root s = true → Re.search root_pattern s = true.
Proof.
  unfold ends_in_root. intros H.
  repeat apply orb_true_iff in H as [H|H]; by eapply search_endswith in H.
Qed.

(** On what the resolver hands to line 73, the regex and the four endings
    agree: a trimmed string does not end in a newline. *)
Lemma search_root_trimmed user_input :
  PyStr.strip user_input ≠ "" →
  Re.search root_pattern (with_scheme (PyStr.strip user_input))
  = ends_in_root (with_scheme (PyStr.strip user_input)).
Proof.
  intros Hne.
  destruct (ends_in_root _) eqn:He; [by apply ends_in_root_search|].
  destruct (Re.search _ _) eqn:Hs; [|done].
  apply search_root_inv in Hs as [Hs|(s' & Hs & _)]; [congruence|].
  assert (∃ t', PyStr.strip user_input = t' +:+ String "010" "") as [t' Ht].
  { unfold with_scheme in Hs.
    destruct (_ || _); [by exists s'|].
    by eapply app_last_inv. }
  unfold PyStr.strip in Ht. by apply rstrip_last in Ht.
Qed.

(** A string that begins with a scheme and names a root is trimmed, has
    its scheme, and matches: the resolver returns it alone. *)
Lemma resolve_rooted_url (c : string) :
  PyStr.startswith "http://" c || PyStr.startswith "https://" c = true →
  ends_in_root c = true →
  _normalize_candidates c = Return [c].
Proof.
  intros Hsch Hroot.
  assert (PyStr.strip c = c) as Hstrip.
  { unfold PyStr.strip.
    assert (PyStr.lstrip PyStr.isspace c = c) as ->.
    { apply orb_true_iff in Hsch as [[r ->]%startswith_true|[r ->]%startswith_true];
        by rewrite str_app_cons. }
    unfold ends_in_root in Hroot.
    repeat apply orb_true_iff in Hroot as [Hroot|Hroot];
      apply endswith_true in Hroot as [a ->]; by apply rstrip_app. }
  unfold _normalize_candidates. rewrite Hstrip.
  unfold with_scheme. rewrite Hsch.
  rewrite (ends_in_root_search _ Hroot).
  case_bool_decide as He; [|done].
  rewrite He in Hroot. done.
Qed.

(** A prefix of an http URL in which [//] occurs includes the scheme. *)
Lemma http_prefix_kept (hp t r : string) (ab : string * string) :
  hp +:+ t = "http://" +:+ r →
  PyStr.partition "//" hp = Some ab →
  PyStr.startswith "http://" hp = true.
Proof.
  intros [[z ->]|[z Hz]]%prefix_cases Hp.
  - apply startswith_true. by eexists.
  - repeat (destruct hp as [|? hp];
            [by vm_compute in Hp | rewrite str_app_cons in Hz; injection Hz as <- Hz]).
    destruct hp; [done | by rewrite str_app_cons in Hz].
Qed.

(** The bare candidate keeps the scheme of the input, completed or not. *)
Lemma candidate_scheme (t : string) (ab : string * string) :
  PyStr.partition "//" (PyStr.rstrip (Ascii.eqb "/") (with_scheme t)) = Some ab →
  PyStr.startswith "http://" (PyStr.rstrip (Ascii.eqb "/") (with_scheme t))
  || PyStr.startswith "https://" (PyStr.rstrip (Ascii.eqb "/") (with_scheme t))
  = true.
Proof.
  intros Hp.
  destruct (rstrip_prefix (Ascii.eqb "/") (with_scheme t)) as [z Hz].
  symmetry in Hz. unfold with_scheme in Hz at 2.
  destruct (PyStr.startswith "http://" t) eqn:E1;
    [|destruct (PyStr.startswith "https://" t) eqn:E2]; cbn [orb] in Hz.
  - apply startswith_true in E1 as [r Hr]. rewrite Hr in Hz at 2.
    by rewrite (http_prefix_kept _ _ _ _ Hz Hp).
  - apply startswith_true in E2 as [r Hr]. rewrite Hr in Hz at 2.
    rewrite (https_prefix_kept _ _ _ _ Hz Hp). apply orb_true_r.
  - by rewrite (http_prefix_kept _ _ _ _ Hz Hp).
Qed.

(** X1: the resolver returns no candidate, one candidate, or exactly the
    three candidates built from the host and port, which are pairwise
    distinct: the dedupe loop never removes anything.  The port :80 is
    inserted in both path candidates or in neither.  When the resolver
    raises, it raises [IndexError]. *)
Theorem resolve_none_one_or_three (user_input : string) :
  match _normalize_candidates user_input with
  | Return l =>
      l = []
      ∨ (∃ c, l = [c])
      ∨ (∃ host_port port,
           (port = "" ∨ port = ":80")
           ∧ l = [host_port +:+ port +:+ "/device";
                  host_port +:+ port +:+ "/fsapi"; host_port]
           ∧ NoDup l)
  | Raise e => e = IndexError "list index out of range"
  end.
Proof.
  destruct (_normalize_candidates_cases user_input)
    as [[_ ->]|[(_ & _ & ->)|[(_ & _ & _ & ->)|(_ & _ & b & h & port & _ & Hport & Hl)]]];
    [by left|right; left; by eexists|done|].
  pose proof (_normalize_candidates_NoDup _ _ Hl) as Hnd. rewrite Hl.
  right. right. eexists _, port. split; [|by split].
  rewrite Hport. destruct (PyStr.contains ":" h); auto.
Qed.

(** X2: the resolver returns the empty list exactly for an input that is
    empty or all whitespace. *)
Theorem resolve_empty_iff_blank (user_input : string) :
  _normalize_candidates user_input = Return [] ↔ PyStr.strip user_input = "".
Proof.
  destruct (_normalize_candidates_cases user_input)
    as [[He ->]|[(He & _ & ->)|[(He & _ & _ & ->)|(He & _ & b & h & port & _ & _ & ->)]]];
    split; try done; by intros [=].
Qed.

(** X3: the resolver returns a single candidate exactly when the trimmed
    input, with its scheme, ends in /device or /fsapi (with or without a
    final slash); the candidate is then that string. *)
Theorem resolve_single_iff_root (user_input : string) :
  (∃ c, _normalize_candidates user_input = Return [c])
  ↔ ends_in_root (with_scheme (PyStr.strip user_input)) = true.
Proof.
  destruct (_normalize_candidates_cases user_input)
    as [[He ->]|[(He & Hs & ->)|[(He & Hs & _ & ->)|(He & Hs & b & h & port & _ & _ & ->)]]].
  - rewrite He. split; [by intros [c [=]]|done].
  - rewrite search_root_trimmed in Hs by done. split; [done|by eexists].
  - rewrite search_root_trimmed in Hs by done. rewrite Hs.
    split; [by intros [c [=]]|done].
  - rewrite search_root_trimmed in Hs by done. rewrite Hs.
    split; [by intros [c [=]]|done].
Qed.

(** X4: whitespace around the input does not matter: the resolver gives
    the trimmed input the same answer. *)
Theorem resolve_of_trimmed (user_input : string) :
  _normalize_candidates (PyStr.strip user_input)
  = _normalize_candidates user_input.
Proof. unfold _normalize_candidates. by rewrite strip_idem. Qed.

(** X5: when the resolver returns three candidates, each of the two path
    candidates, given back to the resolver, is returned alone. *)
Theorem resolve_path_candidates_stable (user_input c1 c2 c3 : string) :
  _normalize_candidates user_input = Return [c1; c2; c3] →
  _normalize_candidates c1 = Return [c1]
  ∧ _normalize_candidates c2 = Return [c2].
Proof.
  intros Hl.
  destruct (_normalize_candidates_cases user_input)
    as [[_ H]|[(_ & _ & H)|[(_ & _ & _ & H)|(He & _ & b & h & port & Hp & _ & H)]]];
    rewrite Hl in H; try done.
  injection H as H1 H2 H3.
  assert (PyStr.startswith "http://" c3 || PyStr.startswith "https://" c3 = true)
    as Hsch by (rewrite H3; by eapply candidate_scheme).
  rewrite <-H3 in *.
  assert (∀ x, PyStr.startswith "http://" (c3 +:+ x)
               || PyStr.startswith "https://" (c3 +:+ x) = true) as Hsch'.
  { intros x. apply orb_true_iff in Hsch as [Hs|Hs];
      rewrite (startswith_app _ _ x Hs); [done|apply orb_true_r]. }
  split; apply resolve_rooted_url; rewrite ?H1, ?H2; try apply Hsch';
    unfold ends_in_root; rewrite <-str_app_assoc, endswith_app;
    by rewrite ?orb_true_r.
Qed.

Lemma with_scheme_default t :
  PyStr.startswith "https://" t = false →
  PyStr.startswith "http://" (with_scheme t) = true.
Proof.
  intros Hs. unfold with_scheme. rewrite Hs, orb_false_r.
  destruct (PyStr.startswith "http://" t) eqn:E; [done|].
  apply startswith_true. by eexists.
Qed.

(** X6: for an input whose trimmed form does not begin with https://,
    every candidate the resolver returns begins with http://, whether the
    scheme was given or completed. *)
Theorem resolve_default_scheme (user_input : string) :
  PyStr.startswith "https://" (PyStr.strip user_input) = false →
  match _normalize_candidates user_input with
  | Return l => Forall (λ c, PyStr.startswith "http://" c = true) l
  | Raise e => e = IndexError "list index out of range"
  end.
Proof.
  intros Hs%with_scheme_default.
  destruct (_normalize_candidates_cases user_input)
    as [[_ ->]|[(_ & _ & ->)|[(_ & _ & _ & ->)|(_ & _ & b & h & port & Hp & _ & ->)]]];
    [constructor|by repeat constructor|done|].
  assert (PyStr.startswith "http://"
            (PyStr.rstrip (Ascii.eqb "/") (with_scheme (PyStr.strip user_input)))
          = true) as Hhp.
  { destruct (rstrip_prefix (Ascii.eqb "/") (with_scheme (PyStr.strip user_input)))
      as [z Hz].
    apply startswith_true in Hs as [r Hr]. rewrite Hr in Hz at 1.
    symmetry in Hz. by eapply http_prefix_kept. }
  repeat constructor; try done; by apply startswith_app.
Qed.

Lemma resolve_default_scheme_witness :
  PyStr.startswith "https://" (PyStr.strip "radio.local:8080") = false
  ∧ _normalize_candidates "radio.local:8080"
    = Return ["http://radio.local:8080/device"; "http://radio.local:8080/fsapi";
              "http://radio.local:8080"]
  ∧ Forall (λ c, PyStr.startswith "http://" c = true)
      ["http://radio.local:8080/device"; "http://radio.local:8080/fsapi";
       "http://radio.local:8080"].
Proof.
  assert (_normalize_candidates "radio.local:8080"
          = Return ["http://radio.local:8080/device";
                    "http://radio.local:8080/fsapi"; "http://radio.local:8080"])
    as Hn by (vm_compute; reflexivity).
  pose proof (resolve_default_scheme "radio.local:8080" eq_refl) as Hl.
  rewrite Hn in Hl. split; [reflexivity|]. split; [exact Hn|exact Hl].
Defined.

Lemma resolve_path_candidates_stable_witness :
  _normalize_candidates "192.168.0.153"
  = Return ["http://192.168.0.153:80/device"; "http://192.168.0.153:80/fsapi";
            "http://192.168.0.153"]
  ∧ _normalize_candidates "http://192.168.0.153:80/device"
    = Return ["http://192.168.0.153:80/device"]
  ∧ _normalize_candidates "http://192.168.0.153:80/fsapi"
    = Return ["http://192.168.0.153:80/fsapi"].
Proof.
  assert (_normalize_candidates "192.168.0.153"
          = Return ["http://192.168.0.153:80/device";
                    "http://192.168.0.153:80/fsapi"; "http://192.168.0.153"])
    as Hn by (vm_compute; reflexivity).
  split; [exact Hn|].
  exact (resolve_path_candidates_stable "192.168.0.153" _ _ _ Hn).
Defined.

(** *** When the resolver raises *)








End resolver_more.

(** ** More on connecting *)

Section connecting_more.

Context `{External}.

(** One turn of the loop on a candidate that fails, with the calls it
    made. *)
Lemma connect_loop_fail_calls base rest last_err σ w' e :
  attempt base (pin (self σ)) (timeout (self σ)) (world σ) = (w', Raise e) →
  ∃ log,
    connect_loop (base :: rest) last_err σ
    = connect_loop rest (Some e)
        {| self := self σ; world := w'; calls := calls σ ++ log |}
    ∧ created log = [base]
    ∧ Forall (λ ev, connect_call (pin (self σ)) (timeout (self σ)) ev = true) log.
Proof.
  unfold attempt. cbn [connect_loop].
  unfold try_except, _run_coro, _create, await_create, await_call, get_self,
    set_self, mbind, M_bind, mret, M_ret. cbn.
  destruct (AFSAPI_create _ _ _ _) as [w1 [api|e1]]; cbn.
  - destruct (api_call _ _ _) as [w2 [name|e2]]; cbn; [done|].
    intros [= -> ->]. eexists [_; _]. rewrite <-app_assoc.
    repeat split; repeat constructor; cbn; by rewrite !Z.eqb_refl.
  - intros [= -> ->]. eexists [_].
    repeat split; repeat constructor; cbn; by rewrite !Z.eqb_refl.
Qed.

(** The loop, whatever the library does: it returns; it made only
    creations and probes; either every candidate was tried and the object
    is as before, or the candidates were tried up to one that answered,
    which the object now holds. *)
Lemma connect_loop_run candidates last_err σ :
  ∃ log last_err',
    (connect_loop candidates last_err σ).2 = Return last_err'
    ∧ calls (connect_loop candidates last_err σ).1 = calls σ ++ log
    ∧ Forall (λ ev, connect_call (pin (self σ)) (timeout (self σ)) ev = true) log
    ∧ ((self (connect_loop candidates last_err σ).1 = self σ
        ∧ created log = candidates)
       ∨ ∃ before k after api,
           candidates = before ++ k :: after
           ∧ created log = before ++ [k]
           ∧ self (connect_loop candidates last_err σ).1
             = {| _api := Some api; _connected := true; url_used := Some k;
                  pin := pin (self σ); timeout := timeout (self σ) |}).
Proof.
  revert last_err σ.
  induction candidates as [|base rest IH]; intros last_err σ.
  - exists [], last_err. cbn. rewrite app_nil_r.
    split; [done|]. split; [done|]. split; [constructor|by left].
  - destruct (attempt base (pin (self σ)) (timeout (self σ)) (world σ))
      as [w' [api|e]] eqn:Hat.
    + destruct (connect_loop_success _ rest last_err _ _ _ Hat) as [name ->].
      eexists [_; _], last_err. cbn. split; [done|]. split; [done|].
      split; [repeat constructor; cbn; by rewrite !Z.eqb_refl|].
      right. by exists [], base, rest, api.
    + destruct (connect_loop_fail_calls _ rest last_err _ _ _ Hat)
        as (log1 & -> & Hc1 & Hf1).
      destruct (IH (Some e) {| self := self σ; world := w';
                               calls := calls σ ++ log1 |})
        as (log2 & last' & Hr & Hcalls & Hf2 & Hcase).
      exists (log1 ++ log2), last'. cbn [self calls pin timeout] in *.
      split; [done|]. split; [by rewrite Hcalls, app_assoc|].
      split; [by apply Forall_app|].
      rewrite created_app, Hc1.
      destruct Hcase as [[Hs Hc2]|(before & k & after & api & -> & Hc2 & Hs)].
      * left. by rewrite Hc2.
      * right. exists (base :: before), k, after, api. by rewrite Hc2.
Qed.

(** [connect] with the library present, whatever the library does. *)
Lemma connect_shape user_url pin' timeout' σ :
  afsapi_imported = true →
  ∃ log,
    calls (connect user_url pin' timeout' σ).1 = calls σ ++ log
    ∧ Forall (λ ev, connect_call pin' timeout' ev = true) log
    ∧ pin (self (connect user_url pin' timeout' σ).1) = pin'
    ∧ timeout (self (connect user_url pin' timeout' σ).1) = timeout'
    ∧ match _normalize_candidates user_url with
      | Raise e =>
          log = []
          ∧ (connect user_url pin' timeout' σ).2 = Raise e
          ∧ cleared (self (connect user_url pin' timeout' σ).1)
      | Return candidates =>
          (created log = candidates
           ∧ cleared (self (connect user_url pin' timeout' σ).1)
           ∧ ∃ msg, (connect user_url pin' timeout' σ).2
                    = Raise (RuntimeError msg))
          ∨ ∃ before k after api,
              candidates = before ++ k :: after
              ∧ created log = before ++ [k]
              ∧ (connect user_url pin' timeout' σ).2 = Return tt
              ∧ _api (self (connect user_url pin' timeout' σ).1) = Some api
              ∧ _connected (self (connect user_url pin' timeout' σ).1) = true
              ∧ url_used (self (connect user_url pin' timeout' σ).1) = Some k
      end.
Proof.
  intros Himp. rewrite (connect_unfold _ _ _ _ Himp).
  destruct (_normalize_candidates user_url) as [candidates|e].
  - destruct (connect_loop_run candidates None
                (reset_state user_url pin' timeout' σ))
      as (log & last' & Hr & Hcalls & Hf & Hcase).
    destruct (connect_loop _ _ _) as [σ' r]. cbn [fst snd] in *. subst r.
    exists log. cbn [reset_state self calls pin timeout] in *.
    destruct Hcase as [[Hs Hc]|(before & k & after & api & -> & Hc & Hs)];
      rewrite Hs; cbn; rewrite ?Hs; cbn.
    + repeat split; try done. left. repeat split; try done. by eexists.
    + repeat split; try done. right. by exists before, k, after, api.
  - exists []. cbn. rewrite app_nil_r. by repeat split.
Qed.


(** X8: when the import of [afsapi] failed, [connect] raises the
    dependency error and does nothing else: settings, session, world and
    call log are as before. *)
Theorem connect_without_library (user_url : string) (pin' timeout' : Z)
    (σ : state) :
  afsapi_imported = false →
  connect user_url pin' timeout' σ
  = (σ, Raise (RuntimeError
          "Dependency missing: install with `pip install afsapi` in your venv.")).
Proof. intros Himp. unfold connect. by rewrite Himp. Qed.

(** X9: when the resolver raises on the address, [connect] raises the same
    error after storing the settings and clearing the session; it makes no
    call to the library, and [is_connected()] is false afterwards even if
    the session was connected before. *)
Theorem connect_resolver_error (user_url : string) (pin' timeout' : Z)
    (σ : state) (e : exception) :
  afsapi_imported = true →
  _normalize_candidates user_url = Raise e →
  ∃ σ',
    connect user_url pin' timeout' σ = (σ', Raise e)
    ∧ calls σ' = calls σ
    ∧ pin (self σ') = pin' ∧ timeout (self σ') = timeout'
    ∧ cleared (self σ')
    ∧ is_connected σ' = (σ', Return false).
Proof.
  intros Himp He. rewrite (connect_unfold _ _ _ _ Himp), He.
  eexists. split; [done|]. by repeat split.
Qed.

(** X10: with the library present, [connect] ends in one of two ways,
    whatever the session was before and whatever the library does: it
    returns, and the session is connected on a URL that is one of the
    resolver's candidates and the last one it tried; or it raises, and the
    session is cleared.  The settings are stored either way. *)
Theorem connect_connected_or_cleared (user_url : string) (pin' timeout' : Z)
    (σ : state) :
  afsapi_imported = true →
  pin (self (connect user_url pin' timeout' σ).1) = pin'
  ∧ timeout (self (connect user_url pin' timeout' σ).1) = timeout'
  ∧ (((connect user_url pin' timeout' σ).2 = Return tt
      ∧ ∃ api k candidates log,
          _api (self (connect user_url pin' timeout' σ).1) = Some api
          ∧ _connected (self (connect user_url pin' timeout' σ).1) = true
          ∧ url_used (self (connect user_url pin' timeout' σ).1) = Some k
          ∧ _normalize_candidates user_url = Return candidates
          ∧ k ∈ candidates
          ∧ calls (connect user_url pin' timeout' σ).1 = calls σ ++ log
          ∧ last (created log) = Some k)
     ∨ ((∃ e, (connect user_url pin' timeout' σ).2 = Raise e)
        ∧ cleared (self (connect user_url pin' timeout' σ).1))).
Proof.
  intros Himp.
  destruct (connect_shape user_url pin' timeout' σ Himp)
    as (log & Hcalls & _ & Hp & Ht & Hcase).
  split; [done|]. split; [done|].
  destruct (_normalize_candidates user_url) as [candidates|e].
  - destruct Hcase as [(_ & Hcl & msg & Hr)
                      |(before & k & after & api & -> & Hc & Hr & Ha & Hco & Hu)].
    + right. split; [by eexists|done].
    + left. split; [done|]. exists api, k, (before ++ k :: after), log.
      repeat split; try done.
      * apply elem_of_app. right. by left.
      * by rewrite Hc, last_snoc.
  - destruct Hcase as (_ & Hr & Hcl). right. split; [by eexists|done].
Qed.


(** X12: a new [connect] does not look at the session it replaces: run on
    two objects that differ in any field, in the same world, it gives the
    same outcome and the same object. *)
Theorem connect_ignores_old_session (user_url : string) (pin' timeout' : Z)
    (s1 s2 : RadioService) (w : World) (log : list event) :
  afsapi_imported = true →
  connect user_url pin' timeout' {| self := s1; world := w; calls := log |}
  = connect user_url pin' timeout' {| self := s2; world := w; calls := log |}.
Proof.
  intros Himp. rewrite !(connect_unfold _ _ _ _ Himp).
  assert (reset_state user_url pin' timeout'
            {| self := s1; world := w; calls := log |}
          = reset_state user_url pin' timeout'
              {| self := s2; world := w; calls := log |}) as ->; [|done].
  unfold reset_state. cbn [calls]. f_equal.
  pose proof (dns_check_eq user_url {| self := s1; world := w; calls := log |}
                s2 log) as Heq.
  cbn [world] in Heq. by rewrite Heq.
Qed.

(** X13: the DNS check never raises and never fails [connect]: whatever
    the address and whatever [gethostbyname] does, it returns, and only
    the world outside may have changed. *)
Theorem dns_check_harmless (user_url : string) (σ : state) :
  ∃ w, dns_check user_url σ
       = ({| self := self σ; world := w; calls := calls σ |}, Return tt).
Proof.
  destruct (dns_check_frame user_url σ) as [w Hw]. exists w.
  rewrite <-Hw. by destruct σ.
Qed.

(** X14: for an address that begins with http but contains no ://, such
    as a host called httpbox, the DNS check looks nothing up:
    [split("://", 1)[1]] raises, the error is dropped, and the state is
    untouched. *)
Theorem dns_check_skipped (user_url : string) (σ : state) :
  PyStr.startswith "http" user_url = true →
  PyStr.contains "://" user_url = false →
  dns_check user_url σ = (σ, Return tt).
Proof.
  intros Hs Hc. unfold dns_check, PyStr.split1. rewrite Hs.
  unfold PyStr.contains in Hc.
  destruct (PyStr.partition "://" user_url) as [ab|]; [|done].
  rewrite bool_decide_eq_true_2 in Hc by eauto. done.
Qed.

End connecting_more.

Lemma connect_without_library_witness :
  @afsapi_imported no_afsapi = false
  ∧ @connect no_afsapi "192.168.0.153" 1234 2 (@startup no_afsapi 0%nat)
    = (@startup no_afsapi 0%nat,
       Raise (RuntimeError
         "Dependency missing: install with `pip install afsapi` in your venv.")).
Proof.
  split; [reflexivity|].
  apply (@connect_without_library no_afsapi). reflexivity.
Defined.

Lemma connect_resolver_error_witness :
  (@afsapi_imported bench_radio = true
   ∧ _normalize_candidates "http://"
     = Raise (IndexError "list index out of range"))
  ∧ ∃ σ',
      @connect bench_radio "http://" 4321 5 bench_connected
      = (σ', Raise (IndexError "list index out of range"))
      ∧ calls σ' = calls bench_connected
      ∧ pin (self σ') = 4321 ∧ timeout (self σ') = 5
      ∧ cleared (self σ')
      ∧ is_connected σ' = (σ', Return false).
Proof.
  split; [split; vm_compute; reflexivity|].
  apply (@connect_resolver_error bench_radio "http://" 4321 5 bench_connected);
    vm_compute; reflexivity.
Defined.

Lemma connect_connected_or_cleared_witness :
  @afsapi_imported dead_radio = true
  ∧ pin (self (@connect dead_radio "radio.local" 4321 5 dead_start).1) = 4321
  ∧ (∃ e, (@connect dead_radio "radio.local" 4321 5 dead_start).2 = Raise e)
  ∧ cleared (self (@connect dead_radio "radio.local" 4321 5 dead_start).1).
Proof.
  split; [reflexivity|].
  destruct (@connect_connected_or_cleared dead_radio "radio.local" 4321 5
              dead_start eq_refl) as (Hp & _ & [[Hr _]|[Hr Hc]]).
  - exfalso. vm_compute in Hr. discriminate Hr.
  - split; [exact Hp|]. split; [exact Hr|exact Hc].
Defined.

Lemma connect_ignores_old_session_witness :
  @afsapi_imported bench_radio = true
  ∧ @connect bench_radio "192.168.0.153" 1234 2
      {| self := @__init__ bench_radio; world := 7%nat; calls := [] |}
    = @connect bench_radio "192.168.0.153" 1234 2
        {| self := self bench_connected; world := 7%nat; calls := [] |}.
Proof.
  split; [reflexivity|].
  apply (@connect_ignores_old_session bench_radio). reflexivity.
Defined.

Lemma dns_check_skipped_witness :
  (PyStr.startswith "http" "httpbox.local:8080" = true
   ∧ PyStr.contains "://" "httpbox.local:8080" = false)
  ∧ @dns_check bench_radio "httpbox.local:8080" bench_start
    = (bench_start, Return tt).
Proof.
  split; [split; reflexivity|].
  apply (@dns_check_skipped bench_radio); reflexivity.
Defined.

(** ** More on the guarded operations *)

Section commands_more.

Context `{External}.

(** A guarded operation on a connected session, as one equation: one call
    of the forwarded coroutine on the handle, logged; what was raised is
    raised, what was returned goes through the wrapper's conversion. *)
Lemma command_connected (m : method Value) (σ : state) (api : Handle) :
  is_connected σ = (σ, Return true) →
  _api (self σ) = Some api →
  command m σ
  = ({| self := self σ; world := (api_call api m (world σ)).1;
        calls := calls σ ++ [EvCall api m (api_call api m (world σ)).2] |},
     match (api_call api m (world σ)).2 with
     | Return v => wrapper_result m v
     | Raise e => Raise e
     end).
Proof.
  intros Hc Hapi. apply _require_connected in Hc.
  destruct m; unfold command, get_friendly_name, get_power, set_power,
    get_volume, set_volume, get_modes, set_mode, get_presets, recall_preset,
    _run_coro, await_self_api, mbind, M_bind; rewrite Hc; cbn;
    rewrite Hapi; unfold await_call;
    by destruct (api_call _ _ _) as [w [v|e]].
Qed.

(** X15: on a connected session, when the forwarded library call returns
    a value, the wrapper returns it - through [bool] for [get_power] and
    through [int] for [get_volume], whose error it raises if the value
    does not convert - having made that one call on the session's handle
    and changed nothing in the object. *)
Theorem command_forwards (m : method Value) (σ : state) (api : Handle)
    (v : Value) (w' : World) :
  is_connected σ = (σ, Return true) →
  _api (self σ) = Some api →
  api_call api m (world σ) = (w', Return v) →
  command m σ
  = ({| self := self σ; world := w';
        calls := calls σ ++ [EvCall api m (Return v)] |},
     wrapper_result m v).
Proof.
  intros Hc Hapi Hcall. rewrite (command_connected m σ api Hc Hapi).
  by rewrite Hcall.
Qed.


(** X17: on a session that is not connected, any sequence of guarded
    operations and [is_connected()] calls leaves the whole state as it
    was: nothing but [connect] gets the service out of the disconnected
    state, and nothing reaches the library meanwhile. *)
Theorem guarded_calls_while_disconnected (ops : list operation) (σ : state) :
  is_connected σ = (σ, Return false) →
  Forall (λ o, guarded_only o = true) ops →
  run ops σ = σ.
Proof.
  intros Hc Hops. induction Hops as [|o ops Ho _ IH]; [done|].
  unfold run in *. cbn [foldl].
  assert (perform o σ = σ) as ->; [|done].
  destruct o; cbn [perform]; [done|done|done|].
  by rewrite command_not_connected.
Qed.

(** X18: whenever [connect] returns normally, the session holds a handle
    and [is_connected()] is true, so every guarded operation invoked next
    passes the guard and makes exactly one call, of its own coroutine, on
    that handle. *)
Theorem connect_then_command (user_url : string) (pin' timeout' : Z)
    (σ σ1 : state) :
  connect user_url pin' timeout' σ = (σ1, Return tt) →
  ∃ api,
    _api (self σ1) = Some api
    ∧ is_connected σ1 = (σ1, Return true)
    ∧ ∀ m, ∃ r,
        calls (command m σ1).1 = calls σ1 ++ [EvCall api m r]
        ∧ self (command m σ1).1 = self σ1.
Proof.
  intros Hconn.
  destruct afsapi_imported eqn:Himp;
    [|by unfold connect in Hconn; rewrite Himp in Hconn].
  destruct (connect_shape user_url pin' timeout' σ Himp)
    as (log & _ & _ & _ & _ & Hcase).
  rewrite Hconn in Hcase. cbn [fst snd] in Hcase.
  assert (∃ api, _api (self σ1) = Some api ∧ _connected (self σ1) = true)
    as (api & Hapi & Hco).
  { destruct (_normalize_candidates user_url).
    - destruct Hcase as [(_ & _ & msg & [=])|(? & ? & ? & api & _ & _ & _ & ? & ? & _)].
      eauto.
    - by destruct Hcase as (_ & [=] & _). }
  assert (is_connected σ1 = (σ1, Return true)) as Hic
    by (by rewrite is_connected_eq, Hapi, Hco).
  exists api. split; [done|]. split; [done|]. intros m.
  rewrite (command_connected m σ1 api Hic Hapi). by eexists.
Qed.

(** X19: with the library present, when [connect] raises - a reconnect
    that fails included - every guarded operation invoked next raises the
    not-connected error without reaching the library: no stale session is
    left behind. *)
Theorem failed_connect_blocks_commands (user_url : string) (pin' timeout' : Z)
    (σ σ1 : state) (e : exception) :
  afsapi_imported = true →
  connect user_url pin' timeout' σ = (σ1, Raise e) →
  is_connected σ1 = (σ1, Return false)
  ∧ ∀ m, command m σ1 = (σ1, Raise (RuntimeError "Not connected to a radio.")).
Proof.
  intros Himp Hconn.
  destruct (connect_shape user_url pin' timeout' σ Himp)
    as (log & _ & _ & _ & _ & Hcase).
  rewrite Hconn in Hcase. cbn [fst snd] in Hcase.
  assert (cleared (self σ1)) as (Hapi & Hco & _).
  { destruct (_normalize_candidates user_url).
    - by destruct Hcase as [(_ & Hcl & _)|(? & ? & ? & ? & _ & _ & [=] & _)].
    - by destruct Hcase as (_ & _ & Hcl). }
  assert (is_connected σ1 = (σ1, Return false)) as Hic
    by (by rewrite is_connected_eq, Hco).
  split; [done|]. intros m. by apply command_not_connected.
Qed.

End commands_more.

Lemma failed_connect_blocks_commands_witness :
  (@afsapi_imported bench_radio = true
   ∧ (@connect bench_radio "http://" 1234 2 bench_connected).2
     = Raise (IndexError "list index out of range"))
  ∧ ∀ m, (@command bench_radio m
            (@connect bench_radio "http://" 1234 2 bench_connected).1).2
         = Raise (RuntimeError "Not connected to a radio.").
Proof.
  split; [split; vm_compute; reflexivity|].
  intros m.
  destruct (@failed_connect_blocks_commands bench_radio "http://" 1234 2
              bench_connected
              (@connect bench_radio "http://" 1234 2 bench_connected).1
              (IndexError "list index out of range") eq_refl)
    as [_ Hm]; [vm_compute; reflexivity|].
  by rewrite Hm.
Defined.

Lemma command_forwards_witness :
  (@is_connected bench_radio bench_connected = (bench_connected, Return true)
   ∧ _api (self bench_connected) = Some "http://192.168.0.153:80/fsapi"
   ∧ @api_call bench_radio "http://192.168.0.153:80/fsapi" GetPower
       (world bench_connected)
     = (4%nat, Return "Kitchen"))
  ∧ @command bench_radio GetPower bench_connected
    = ({| self := self bench_connected; world := 4%nat;
          calls := calls bench_connected
                   ++ [@EvCall bench_radio "http://192.168.0.153:80/fsapi"
                         GetPower (Return "Kitchen")] |},
       Return "Kitchen").
Proof.
  split; [repeat split; vm_compute; reflexivity|].
  apply (@command_forwards bench_radio GetPower bench_connected
           "http://192.168.0.153:80/fsapi" "Kitchen" 4%nat);
    vm_compute; reflexivity.
Defined.

Lemma guarded_calls_while_disconnected_witness :
  (@is_connected bench_radio bench_start = (bench_start, Return false)
   ∧ Forall (λ o, @guarded_only bench_radio o = true)
       [OpCommand GetVolume; OpIsConnected; OpCommand (SetPower true)])
  ∧ @run bench_radio
      [OpCommand GetVolume; OpIsConnected; OpCommand (SetPower true)]
      bench_start
    = bench_start.
Proof.
  assert (Forall (λ o, @guarded_only bench_radio o = true)
            [OpCommand GetVolume; OpIsConnected; OpCommand (SetPower true)])
    as Hops by (repeat constructor).
  split; [split; [reflexivity|exact Hops]|].
  exact (@guarded_calls_while_disconnected bench_radio _ bench_start
           eq_refl Hops).
Defined.

Lemma connect_then_command_witness :
  @connect bench_radio "192.168.0.153" 1234 2 bench_start
  = (bench_connected, Return tt)
  ∧ ∃ api,
      _api (self bench_connected) = Some api
      ∧ @is_connected bench_radio bench_connected
        = (bench_connected, Return true)
      ∧ ∀ m, ∃ r,
          calls (@command bench_radio m bench_connected).1
          = calls bench_connected ++ [EvCall api m r]
          ∧ self (@command bench_radio m bench_connected).1
            = self bench_connected.
Proof.
  assert (@connect bench_radio "192.168.0.153" 1234 2 bench_start
          = (bench_connected, Return tt)) as Hc by (vm_compute; reflexivity).
  split; [exact Hc|].
  exact (@connect_then_command bench_radio _ _ _ _ _ Hc).
Defined.

(** ** The executor under several callers *)

Section executor_facts.

Context `{External}.

Lemma count_of_app i l1 l2 : count_of i (l1 ++ l2) = (count_of i l1 + count_of i l2)%nat.
Proof. unfold count_of. by rewrite filter_app, length_app. Qed.

Lemma count_of_cons i t l :
  count_of i (t :: l)
  = ((if decide (owner t = i) then 1 else 0) + count_of i l)%nat.
Proof. unfold count_of. rewrite filter_cons. by destruct (decide _). Qed.

Lemma count_of_delete i k t l :
  l !! k = Some t →
  count_of i l
  = ((if decide (owner t = i) then 1 else 0) + count_of i (delete k l))%nat.
Proof.
  intros Hk. rewrite <-(take_drop_middle l k t Hk) at 1.
  rewrite delete_take_drop, !count_of_app, count_of_cons. lia.
Qed.

Lemma completed_by_snoc i j c (l : list (nat * coroutine)) :
  (filter (λ p : nat * coroutine, p.1 = i) (l ++ [(j, c)])).*2
  = (filter (λ p : nat * coroutine, p.1 = i) l).*2
    ++ (if decide (j = i) then [c] else []).
Proof.
  rewrite filter_app, fmap_app. f_equal.
  rewrite filter_cons. cbn. by destruct (decide (j = i)).
Qed.

Lemma boot_ok programs : executor_ok programs (boot programs).
Proof.
  intros i. unfold boot, account, completed_by. cbn.
  rewrite list_lookup_fmap.
  destruct (programs !! i) as [p|]; cbn; by split.
Qed.

Lemma exec_ok programs mv x :
  executor_ok programs x → executor_ok programs (exec mv x).
Proof.
  intros Hok. destruct mv as [i0| |k ok]; cbn [exec].
  - destruct (callers x !! i0) as [[[c0|] [|c rest]]|] eqn:Hi0; try done.
    intros i. destruct (Hok i) as [Hc Hp].
    unfold account, completed_by in *. cbn [callers ready in_flight completed].
    rewrite <-app_assoc, count_of_app. cbn [app]. rewrite count_of_cons.
    rewrite count_of_app in Hc. cbn [owner].
    destruct (decide (i0 = i)) as [->|Hne].
    + rewrite list_lookup_insert_eq by (by eapply lookup_lt_Some).
      rewrite Hi0 in Hc, Hp. cbn in *. split; [lia|done].
    + rewrite list_lookup_insert_ne by done. split; [lia|done].
  - destruct (ready x) as [|t rest] eqn:Hr; [done|].
    destruct (pending t) as [|d ds] eqn:Hpend.
    + destruct (callers x !! owner t) as [[[c|] rest']|] eqn:Ht; try done.
      intros i. destruct (Hok i) as [Hc Hp].
      unfold account, completed_by in *. cbn [callers ready in_flight completed].
      rewrite Hr in Hc. cbn [app] in Hc. rewrite count_of_cons in Hc.
      rewrite completed_by_snoc.
      destruct (decide (owner t = i)) as [<-|Hne].
      * rewrite list_lookup_insert_eq by (by eapply lookup_lt_Some).
        rewrite Ht in Hc, Hp. cbn in *. split; [lia|].
        by rewrite <-app_assoc.
      * rewrite list_lookup_insert_ne by done. rewrite app_nil_r.
        split; [lia|done].
    + intros i. destruct (Hok i) as [Hc Hp].
      unfold account, completed_by in *. cbn [callers ready in_flight completed].
      rewrite Hr in Hc. cbn [app] in Hc.
      rewrite count_of_cons, count_of_app in Hc.
      rewrite !count_of_app, count_of_cons. cbn [count_of filter length].
      split; [|done]. unfold count_of at 3. cbn. lia.
  - destruct (in_flight x !! k) as [t|] eqn:Hk; [|done].
    intros i. destruct (Hok i) as [Hc Hp].
    unfold account, completed_by in *. cbn [callers ready in_flight completed].
    rewrite count_of_app, (count_of_delete i k t _ Hk) in Hc.
    rewrite !count_of_app, count_of_cons. cbn [owner].
    split; [|done]. unfold count_of at 2. cbn. lia.
Qed.

Lemma run_moves_ok programs moves x :
  executor_ok programs x → executor_ok programs (run_moves moves x).
Proof.
  revert x. induction moves as [|mv moves IH]; intros x Hx; [done|].
  apply IH. by apply exec_ok.
Qed.

(** C7, as amended: whatever the threads, the loop and the radio do next,
    a caller has at most one task in the loop and none when it is not
    blocked in [_run_coro], so the calls of one caller never overlap; and
    what a caller has finished, what it waits for and what it has left
    are its program in order, so its operations run in the order it
    submitted them.  Nothing is said of two callers. *)
Theorem executor_per_caller_order (programs : list (list coroutine))
    (moves : list move) :
  let x := run_moves moves (boot programs) in
  (∀ i, (length (tasks_of i x) ≤ 1)%nat)
  ∧ (∀ i cs, callers x !! i = Some cs → waiting cs = None → tasks_of i x = [])
  ∧ (∀ i cs, callers x !! i = Some cs →
             programs !! i
             = Some (completed_by i x ++ option_list (waiting cs) ++ todo cs))
  ∧ length (callers x) = length programs.
Proof.
  intros x.
  assert (executor_ok programs x) as Hok by apply run_moves_ok, boot_ok.
  split; [|split; [|split]].
  - intros i. destruct (Hok i) as [Hc _]. unfold tasks_of.
    change (length _) with (count_of i (ready x ++ in_flight x)). rewrite Hc.
    destruct (callers x !! i) as [[[c|] td]|]; cbn; lia.
  - intros i cs Hi Hw. destruct (Hok i) as [Hc _]. rewrite Hi in Hc.
    unfold load in Hc. cbn in Hc. rewrite Hw in Hc.
    by apply length_zero_iff_nil.
  - intros i cs Hi. destruct (Hok i) as [_ Hp]. by rewrite Hi in Hp.
  - assert (∀ i, is_Some (callers x !! i) ↔ is_Some (programs !! i)) as Hdom.
    { intros i. destruct (Hok i) as [_ Hp]. rewrite Hp, fmap_is_Some. done. }
    apply Nat.le_antisymm; apply Nat.nlt_ge; intros Hlt.
    + destruct (lookup_lt_is_Some_2 _ _ Hlt) as [cs Hcs].
      assert (is_Some (programs !! length programs)) as Hs
        by (apply Hdom; eauto).
      apply lookup_lt_is_Some_1 in Hs. lia.
    + destruct (lookup_lt_is_Some_2 _ _ Hlt) as [p Hp].
      assert (is_Some (callers x !! length (callers x))) as Hs
        by (apply Hdom; eauto).
      apply lookup_lt_is_Some_1 in Hs. lia.
Qed.

End executor_facts.

Example one_caller_runs_to_completion :
  completed
    (@run_moves bench_radio
       [CallerSubmits 0; LoopRuns; DeviceResponds 0 true; LoopRuns;
        DeviceResponds 0 true; LoopRuns; CallerSubmits 0; LoopRuns;
        DeviceResponds 0 false; LoopRuns]
       (@boot bench_radio
          [[Co_create "http://192.168.0.153:80/fsapi"; Co_c GetVolume]]))
  = [(0%nat, @Co_create bench_radio "http://192.168.0.153:80/fsapi");
     (0%nat, Co_c GetVolume)].
Proof. reflexivity. Qed.

(** C7, as stated, fails: with two threads, one in [get_volume] and one
    in [connect], the loop sends the second call while the first is still
    unanswered; two calls are then in flight on the one session, and one
    of them is a creation of [connect].  The same happens with two
    wrappers. *)
Lemma two_calls_in_flight :
  in_flight
    (@run_moves bench_radio
       [CallerSubmits 0; LoopRuns; CallerSubmits 1; LoopRuns]
       (@boot bench_radio
          [[Co_c GetVolume]; [Co_create "http://192.168.0.153:80/device"]]))
  = [ {| owner := 0%nat; pending := [@DevMethod bench_radio GetVolume] |};
      {| owner := 1%nat;
         pending := [@DevCreate bench_radio "http://192.168.0.153:80/device";
                     DevMethod GetFriendlyName] |} ]
  ∧ in_flight
      (@run_moves bench_radio
         [CallerSubmits 0; CallerSubmits 1; LoopRuns; LoopRuns]
         (@boot bench_radio [[Co_c GetVolume]; [Co_c (SetPower true)]]))
    = [ {| owner := 0%nat; pending := [@DevMethod bench_radio GetVolume] |};
        {| owner := 1%nat;
           pending := [@DevMethod bench_radio (SetPower true)] |} ].
Proof. split; reflexivity. Qed.

(** C6, as stated, fails: the code has no error of a kind of its own for
    a failed library call.  On a connected session the wrapper raises the
    library's exception as it is: with the liar, the very value that the
    guard raises on a session that is not connected; with the bench
    radio, the library's own timeout. *)
Lemma device_call_failed_unwrapped :
  @is_connected liar_radio liar_connected = (liar_connected, Return true)
  ∧ @api_call liar_radio "http://192.168.0.153:80/device" GetVolume
      (world liar_connected)
    = (3%nat, Raise (RuntimeError "Not connected to a radio."))
  ∧ (@command liar_radio GetVolume liar_connected).2
    = Raise (RuntimeError "Not connected to a radio.")
  ∧ @is_connected liar_radio liar_start = (liar_start, Return false)
  ∧ (@command liar_radio GetVolume liar_start).2
    = Raise (RuntimeError "Not connected to a radio.")
  ∧ (@command bench_radio GetVolume bench_connected).2
    = Raise (Exc "TimeoutError" "timed out").
Proof. repeat split; vm_compute; reflexivity. Qed.
